(** * Order-book reconstruction (l2l3_orderbook): embedding and properties

    Shallow embedding of
      - [bots/l2l3_orderbook/models.py]            (module [Models])
      - [bots/l2l3_orderbook/bus.py]               (module [Bus])
      - [bots/l2l3_orderbook/exchanges/binance_l2.py]  (module [BinanceL2])
      - [bots/l2l3_orderbook/exchanges/coinbase_l3.py] (module [CoinbaseL3])
      - [bots/l2l3_orderbook/storage.py]           (module [Storage])
      - [bots/l2l3_orderbook/dashboard.py]         (module [Dashboard])

    Conventions.
      - A Python [float] is modelled by an exact rational ([Qc]): every finite
        float is a rational, and [+], [-], [max] and the comparisons are the
        exact ones.  Binary rounding, infinities and NaN are outside the model.
      - A Python method that mutates [self] and may raise is a computation in
        the monad [M S A := S -> res S A]; a raised exception carries the state
        at the raise, since the mutations done before it persist.
      - A dict is a [gmap]; the code only reads dicts by key or through
        [sorted(...)] on their unique keys, so insertion order is not observed.
      - The wall clock ([time.time()]), the network and the stop event are
        inputs: a loop that awaits messages is a recursion over the finite
        list of messages that arrive before the stop event is set, each
        paired with the clock reading taken while it is processed. *)

From Stdlib Require Import QArith Qcanon ZArith Lia Lqa Ascii String.
From stdpp Require Import base numbers sorting option strings gmap list.

Open Scope Z_scope.

(** ** Python values, exceptions and the state-and-exception monad *)

Module Py.

Inductive exn :=
| RuntimeError (msg : string)
| ValueError
| TypeError
| KeyError
| AttributeError
| ZeroDivisionError.

Inductive res (S A : Type) :=
| Done (a : A) (s : S)
| Raised (e : exn) (s : S).
Arguments Done {S A} a s.
Arguments Raised {S A} e s.

Definition M (S A : Type) : Type := S -> res S A.

Definition ret {S A} (a : A) : M S A := fun s => Done a s.
Definition raise {S A} (e : exn) : M S A := fun s => Raised e s.
Definition bind {S A B} (m : M S A) (k : A -> M S B) : M S B :=
  fun s => match m s with
           | Done a s' => k a s'
           | Raised e s' => Raised e s'
           end.
Definition get {S} : M S S := fun s => Done s s.
Definition modify {S} (f : S -> S) : M S unit := fun s => Done tt (f s).
(** A pure coercion that may fail, run inside a method. *)
Definition lift {S A} (r : exn + A) : M S A :=
  match r with inl e => raise e | inr a => ret a end.

Definition final {S A} (r : res S A) : S :=
  match r with Done _ s => s | Raised _ s => s end.

(** [I] holds of the object after the call, returned or raised, whenever
    it held before. *)
Definition preserves {S A} (I : S -> Prop) (m : M S A) : Prop :=
  forall s, I s -> I (final (m s)).

(** A scalar read out of a decoded JSON message ([dict.get] gives [None],
    here [JNull], for a missing key as well as for a JSON null). *)
Inductive jval :=
| JNull
| JNum (q : Qc)
| JStr (s : string).

#[global] Instance jval_eq_dec : EqDecision jval.
Proof. solve_decision. Defined.

(** Scalars are dict keys ([orders[order_id]]). *)
#[global] Instance jval_countable : Countable jval.
Proof.
  refine (inj_countable'
    (fun v => match v with
              | JNull => inl tt
              | JNum q => inr (inl q)
              | JStr s => inr (inr s)
              end)
    (fun x => match x with
              | inl _ => JNull
              | inr (inl q) => JNum q
              | inr (inr s) => JStr s
              end) _).
  intros []; reflexivity.
Defined.

(** Python truthiness: [None], [0], [0.0] and the empty string are falsy. *)
Definition truthy (v : jval) : bool :=
  match v with
  | JNull => false
  | JNum q => negb (bool_decide (q = 0%Qc))
  | JStr s => negb (bool_decide (s = EmptyString))
  end.

(** [a or b] *)
Definition por (a b : jval) : jval := if truthy a then a else b.

(** The string grammars of the builtins [float] and [int] are Python's,
    not this repository's: they are an interface. *)
Class Builtins := {
  float_of_str : string -> option Qc;
  int_of_str : string -> option Z;
  (** [int(datetime.fromisoformat(s).timestamp() * 1000)] *)
  iso_ms_of_str : string -> option Z;
}.

(** [int(x)] of a number truncates toward zero. *)
Definition trunc (q : Qc) : Z := Z.quot (Qnum q) (Zpos (Qden q)).

Section Coercions.
Context `{Builtins}.

Definition float (v : jval) : exn + Qc :=
  match v with
  | JNull => inl TypeError
  | JNum q => inr q
  | JStr s => match float_of_str s with Some q => inr q | None => inl ValueError end
  end.

Definition int (v : jval) : exn + Z :=
  match v with
  | JNull => inl TypeError
  | JNum q => inr (trunc q)
  | JStr s => match int_of_str s with Some z => inr z | None => inl ValueError end
  end.

(** [int(x or 0)] *)
Definition int_or0 (v : jval) : exn + Z := int (por v (JNum 0%Qc)).
End Coercions.

(** [l[:n]]: a negative bound counts from the end. *)
Definition slice_to {A} (n : Z) (l : list A) : list A :=
  if n <? 0 then take (Z.to_nat (Z.of_nat (length l) + n)) l
  else take (Z.to_nat n) l.

(** [max(0.0, x)]: the first argument wins unless the second is greater. *)
Definition max0 (x : Qc) : Qc := if decide (0 < x)%Qc then x else 0%Qc.

(** Plain decimal literals, as the venues send them: an optional sign,
    digits, and an optional fraction.  One instance of [Builtins], used for
    the concrete scenarios. *)
Definition digit (c : Ascii.ascii) : option Z :=
  let n := Z.of_N (Ascii.N_of_ascii c) in
  if (48 <=? n) && (n <=? 57) then Some (n - 48) else None.

Fixpoint digits (acc : Z) (scale : positive) (any : bool) (s : string)
  : option (Z * positive * bool * string) :=
  match s with
  | EmptyString => Some (acc, scale, any, EmptyString)
  | String c s' =>
      match digit c with
      | Some d => digits (10 * acc + d) (10 * scale) true s'
      | None => Some (acc, scale, any, s)
      end
  end.

Definition unsigned_decimal (s : string) : option Qc :=
  match digits 0 1 false s with
  | Some (ip, _, any1, EmptyString) =>
      if any1 then Some (Q2Qc (ip # 1)) else None
  | Some (ip, _, any1, String "."%char frac) =>
      match digits ip 1 false frac with
      | Some (n, sc, any2, EmptyString) =>
          if any1 || any2 then Some (Q2Qc (n # sc)) else None
      | _ => None
      end
  | _ => None
  end.

Definition decimal_of_str (s : string) : option Qc :=
  match s with
  | String "-"%char s' => Qcopp <$> unsigned_decimal s'
  | String "+"%char s' => unsigned_decimal s'
  | _ => unsigned_decimal s
  end.

Definition integer_of_str (s : string) : option Z :=
  let unsigned (t : string) :=
    match digits 0 1 false t with
    | Some (n, _, true, EmptyString) => Some n
    | _ => None
    end in
  match s with
  | String "-"%char s' => Z.opp <$> unsigned s'
  | String "+"%char s' => unsigned s'
  | _ => unsigned s
  end.

(** This instance reads no ISO timestamp: the scenarios carry none. *)
Definition decimal_builtins : Builtins :=
  {| float_of_str := decimal_of_str; int_of_str := integer_of_str;
     iso_ms_of_str := fun _ => None |}.

End Py.

Import Py.

Declare Scope py_scope.
Delimit Scope py_scope with py.
Notation "'do' x <- m ; k" := (Py.bind m (fun x => k))
  (at level 10, x name, m at level 100, k at level 200) : py_scope.
Notation "'exec' m ; k" := (Py.bind m (fun _ => k))
  (at level 10, m at level 100, k at level 200) : py_scope.
Open Scope py_scope.

(** ** models.py *)

Module Models.

(** [BookState].  The annotations are not enforced at run time:
    [ts_exchange_ms] holds whatever the builder passed. *)
Record BookState := {
  venue : string;
  symbol : string;
  ts_exchange_ms : jval;
  ts_local_ms : Z;
  kind : string;
  best_bid : Qc;
  best_ask : Qc;
  bids : list (Qc * Qc);
  asks : list (Qc * Qc);
  l3_order_count : option nat;
}.

End Models.

(** ** bus.py *)

Module Bus.

(** [Event.payload] is typed [Any]. *)
Inductive any :=
| Book (b : Models.BookState)
| Other.

Record Event := { type : string; payload : any }.

(** What a builder does with an event it hands to the bus:
    [asyncio.create_task(bus.publish(e))] starts a detached task,
    [await bus.publish(e)] runs the call on the caller's own task. *)
Inductive action :=
| create_task_publish (e : Event)
| await_publish (e : Event).

End Bus.

(** ** exchanges/binance_l2.py *)

Module BinanceL2.

(** A [depthUpdate] message: the keys the builder reads.  A missing [b] or
    [a] is the empty list ([event.get("b", [])]). *)
Record depth_event := {
  ev_U : jval;
  ev_u : jval;
  ev_E : jval;
  ev_b : list (jval * jval);
  ev_a : list (jval * jval);
}.

(** The REST depth snapshot. *)
Record snapshot := {
  lastUpdateId : jval;
  snap_bids : list (jval * jval);
  snap_asks : list (jval * jval);
}.

(** The builder object.  [bus] is the list of publish actions the builder
    has issued on its [EventBus], oldest first. *)
Record BinanceL2BookBuilder := {
  symbol : string;
  top_n : Z;
  emit_full : bool;
  bids : gmap Qc Qc;
  asks : gmap Qc Qc;
  book_update_id : Z;
  _resync_count : Z;
  _last_event_ts : Z;
  bus : list Bus.action;
}.

Definition set_bids (m : gmap Qc Qc) (s : BinanceL2BookBuilder) :=
  {| symbol := symbol s; top_n := top_n s; emit_full := emit_full s;
     bids := m; asks := asks s; book_update_id := book_update_id s;
     _resync_count := _resync_count s; _last_event_ts := _last_event_ts s;
     bus := bus s |}.
Definition set_asks (m : gmap Qc Qc) (s : BinanceL2BookBuilder) :=
  {| symbol := symbol s; top_n := top_n s; emit_full := emit_full s;
     bids := bids s; asks := m; book_update_id := book_update_id s;
     _resync_count := _resync_count s; _last_event_ts := _last_event_ts s;
     bus := bus s |}.
Definition set_book_update_id (z : Z) (s : BinanceL2BookBuilder) :=
  {| symbol := symbol s; top_n := top_n s; emit_full := emit_full s;
     bids := bids s; asks := asks s; book_update_id := z;
     _resync_count := _resync_count s; _last_event_ts := _last_event_ts s;
     bus := bus s |}.
Definition set_resync_count (z : Z) (s : BinanceL2BookBuilder) :=
  {| symbol := symbol s; top_n := top_n s; emit_full := emit_full s;
     bids := bids s; asks := asks s; book_update_id := book_update_id s;
     _resync_count := z; _last_event_ts := _last_event_ts s;
     bus := bus s |}.
Definition set_last_event_ts (z : Z) (s : BinanceL2BookBuilder) :=
  {| symbol := symbol s; top_n := top_n s; emit_full := emit_full s;
     bids := bids s; asks := asks s; book_update_id := book_update_id s;
     _resync_count := _resync_count s; _last_event_ts := z;
     bus := bus s |}.
Definition set_bus (l : list Bus.action) (s : BinanceL2BookBuilder) :=
  {| symbol := symbol s; top_n := top_n s; emit_full := emit_full s;
     bids := bids s; asks := asks s; book_update_id := book_update_id s;
     _resync_count := _resync_count s; _last_event_ts := _last_event_ts s;
     bus := l |}.

(** [__post_init__] *)
Definition new (sym : string) (n : Z) (full : bool) : BinanceL2BookBuilder :=
  {| symbol := sym; top_n := n; emit_full := full;
     bids := ∅; asks := ∅; book_update_id := 0;
     _resync_count := 0; _last_event_ts := 0; bus := [] |}.

(** [int(time.time() * 1000)] for a clock reading [now] (seconds). *)
Definition now_ms (now : Qc) : Z := trunc (now * Q2Qc 1000)%Qc.

(** Sort keys of [sorted(d.items(), key=lambda x: x[0], reverse=...)]. *)
Definition price_desc (x y : Qc * Qc) : Prop := (y.1 <= x.1)%Qc.
Definition price_asc (x y : Qc * Qc) : Prop := (x.1 <= y.1)%Qc.
#[global] Instance price_desc_dec x y : Decision (price_desc x y).
Proof. unfold price_desc. apply _. Defined.
#[global] Instance price_asc_dec x y : Decision (price_asc x y).
Proof. unfold price_asc. apply _. Defined.

Definition sorted_desc (m : gmap Qc Qc) : list (Qc * Qc) :=
  merge_sort price_desc (map_to_list m).
Definition sorted_asc (m : gmap Qc Qc) : list (Qc * Qc) :=
  merge_sort price_asc (map_to_list m).

(** One entry [[p, q]] of a diff: quantity zero pops the level, any other
    quantity overwrites it. *)
Definition put_level (price qty : Qc) (side : gmap Qc Qc) : gmap Qc Qc :=
  if decide (qty = 0%Qc) then delete price side else <[price := qty]> side.

Section Methods.
Context `{Builtins}.

(** The dict comprehension of [_load_snapshot]: the filter [float(q) > 0.0]
    runs first, the key [float(p)] is computed only for the entries kept,
    and a later entry with the same price overwrites an earlier one. *)
Fixpoint snapshot_side (l : list (jval * jval)) (acc : gmap Qc Qc)
  : exn + gmap Qc Qc :=
  match l with
  | [] => inr acc
  | (p, q) :: l' =>
      match float q with
      | inl e => inl e
      | inr qty =>
          if decide (0 < qty)%Qc then
            match float p with
            | inl e => inl e
            | inr price =>
                match float q with
                | inl e => inl e
                | inr qty' => snapshot_side l' (<[price := qty']> acc)
                end
            end
          else snapshot_side l' acc
      end
  end.

Definition _load_snapshot (snap : snapshot) : M BinanceL2BookBuilder unit :=
  do bs <- lift (snapshot_side (snap_bids snap) ∅);
  exec modify (set_bids bs);
  do as_ <- lift (snapshot_side (snap_asks snap) ∅);
  modify (set_asks as_).

Fixpoint apply_bids (l : list (jval * jval)) : M BinanceL2BookBuilder unit :=
  match l with
  | [] => ret tt
  | (p, q) :: l' =>
      do price <- lift (float p);
      do qty <- lift (float q);
      exec modify (fun s => set_bids (put_level price qty (bids s)) s);
      apply_bids l'
  end.

Fixpoint apply_asks (l : list (jval * jval)) : M BinanceL2BookBuilder unit :=
  match l with
  | [] => ret tt
  | (p, q) :: l' =>
      do price <- lift (float p);
      do qty <- lift (float q);
      exec modify (fun s => set_asks (put_level price qty (asks s)) s);
      apply_asks l'
  end.

Definition _apply_event (now : Qc) (event : depth_event)
  : M BinanceL2BookBuilder unit :=
  do ts <- lift (int (por (ev_E event) (JNum (now * Q2Qc 1000)%Qc)));
  exec modify (set_last_event_ts ts);
  exec apply_bids (ev_b event);
  apply_asks (ev_a event).

Definition _top_levels (s : BinanceL2BookBuilder)
  : list (Qc * Qc) * list (Qc * Qc) :=
  (slice_to (top_n s) (sorted_desc (bids s)),
   slice_to (top_n s) (sorted_asc (asks s))).

(** The state [_emit_state] builds, if it builds one. *)
Definition book_state (now : Qc) (ts_exchange_ms : jval)
    (s : BinanceL2BookBuilder) : option Models.BookState :=
  let '(bs, as_) :=
    if emit_full s then (sorted_desc (bids s), sorted_asc (asks s))
    else _top_levels s in
  match bs, as_ with
  | (bb, _) :: _, (ba, _) :: _ =>
      let ts := match ts_exchange_ms with
                | JNull => JNum (Q2Qc (now_ms now # 1))
                | _ => ts_exchange_ms
                end in
      Some {| Models.venue := "binance";
              Models.symbol := symbol s;
              Models.ts_exchange_ms := ts;
              Models.ts_local_ms := now_ms now;
              Models.kind := "L2";
              Models.best_bid := bb;
              Models.best_ask := ba;
              Models.bids := bs;
              Models.asks := as_;
              Models.l3_order_count := None |}
  | _, _ => None
  end.

Definition _emit_state (now : Qc) (ts_exchange_ms : jval)
  : M BinanceL2BookBuilder unit :=
  do s <- get;
  match book_state now ts_exchange_ms s with
  | None => ret tt
  | Some state =>
      modify (set_bus (bus s ++ [Bus.create_task_publish
                {| Bus.type := "book_state"; Bus.payload := Bus.Book state |}]))
  end.

(** One iteration of the loop over [buffered] in [_run_once]; the result
    tells whether the event was applied. *)
Definition replay_one (arrival : Qc * depth_event)
  : M BinanceL2BookBuilder bool :=
  let '(now, event) := arrival in
  do u <- lift (int_or0 (ev_u event));
  do U <- lift (int_or0 (ev_U event));
  do s <- get;
  if decide (u <= book_update_id s) then ret false
  else if decide (U <= book_update_id s + 1 <= u) then
    exec _apply_event now event;
    exec modify (set_book_update_id u);
    ret true
  else if decide (U > book_update_id s + 1) then
    raise (RuntimeError "binance_l2_gap")
  else ret false.

Fixpoint replay (evs : list (Qc * depth_event)) (applied : bool)
  : M BinanceL2BookBuilder bool :=
  match evs with
  | [] => ret applied
  | ev :: evs' => do a <- replay_one ev; replay evs' (applied || a)
  end.

(** The [while True] loop run when no buffered event was applied: it ends
    with [break] at the first event that bridges ([Some rest], the events
    not yet consumed), or is still awaiting when the input ends. *)
Fixpoint await_first (evs : list (Qc * depth_event))
  : M BinanceL2BookBuilder (option (list (Qc * depth_event))) :=
  match evs with
  | [] => ret None
  | (now, event) :: evs' =>
      do u <- lift (int_or0 (ev_u event));
      do U <- lift (int_or0 (ev_U event));
      do s <- get;
      if decide (u <= book_update_id s) then await_first evs'
      else if decide (U <= book_update_id s + 1 <= u) then
        exec _apply_event now event;
        exec modify (set_book_update_id u);
        ret (Some evs')
      else if decide (U > book_update_id s + 1) then
        raise (RuntimeError "binance_l2_gap")
      else await_first evs'
  end.

(** One iteration of the live loop [while not stop_evt.is_set()]. *)
Definition live_one (arrival : Qc * depth_event)
  : M BinanceL2BookBuilder unit :=
  let '(now, event) := arrival in
  do u <- lift (int_or0 (ev_u event));
  do U <- lift (int_or0 (ev_U event));
  do s <- get;
  if decide (u <= book_update_id s) then ret tt
  else if decide (U > book_update_id s + 1) then
    raise (RuntimeError "binance_l2_gap")
  else
    exec _apply_event now event;
    exec modify (set_book_update_id u);
    _emit_state now (ev_E event).

Fixpoint live_loop (evs : list (Qc * depth_event))
  : M BinanceL2BookBuilder unit :=
  match evs with
  | [] => ret tt
  | ev :: evs' => exec live_one ev; live_loop evs'
  end.

(** What one connection attempt is given: the results of the successive
    [_fetch_snapshot] calls ([None]: the fetch failed), the events found
    in the queue when it is drained after the snapshot, and the events
    that arrive later, each with the clock reading at its processing. *)
Record epoch := {
  fetched : list (option snapshot);
  buffered : list (Qc * depth_event);
  live : list (Qc * depth_event);
}.

Inductive fetch_result :=
| Got (snap : snapshot) (last_id : Z)
| NoSnapshot
| Pending.

(** The fetch and the refetch loop [while first_u is not None and
    last_id < first_u]. *)
Fixpoint fetch_until (first_u : option Z) (l : list (option snapshot))
  : exn + fetch_result :=
  match l with
  | [] => inr Pending
  | None :: _ => inr NoSnapshot
  | Some snap :: l' =>
      match int (lastUpdateId snap) with
      | inl e => inl e
      | inr last_id =>
          match first_u with
          | Some fu =>
              if decide (last_id < fu) then fetch_until first_u l'
              else inr (Got snap last_id)
          | None => inr (Got snap last_id)
          end
      end
  end.

(** [first_u], set by the receiver from the first event it sees. *)
Definition first_u_of (evs : list (Qc * depth_event)) : option Z :=
  match evs with
  | [] => None
  | (_, event) :: _ =>
      Some (match int_or0 (ev_U event) with inr z => z | inl _ => 0 end)
  end.

(** How a call of [_run_once] stands when its input ends: it has
    returned, or it is suspended in an [await] or a fetch. *)
Inductive status := Returned | Awaiting.

(** [_run_once] up to the live loop: either the call is over, or it has
    a consistent book and goes on with the events not yet consumed. *)
Inductive phase :=
| Synced (rest : list (Qc * depth_event))
| Ended (st : status).

Definition synchronise (ep : epoch) : M BinanceL2BookBuilder phase :=
  exec modify (set_bids ∅);
  exec modify (set_asks ∅);
  exec modify (set_book_update_id 0);
  do r <- lift (fetch_until (first_u_of (buffered ep)) (fetched ep));
  match r with
  | Pending => ret (Ended Awaiting)
  | NoSnapshot => ret (Ended Returned)
  | Got snap last_id =>
      exec _load_snapshot snap;
      exec modify (set_book_update_id last_id);
      do applied <- replay (buffered ep) false;
      if applied : bool then ret (Synced (live ep))
      else
        do rest <- await_first (live ep);
        match rest with
        | None => ret (Ended Awaiting)
        | Some evs => ret (Synced evs)
        end
  end.

Definition _run_once (ep : epoch) : M BinanceL2BookBuilder status :=
  do ph <- synchronise ep;
  match ph with
  | Ended st => ret st
  | Synced evs => exec live_loop evs; ret Returned
  end.

(** [start]: every exception of an attempt is caught, counted and
    followed by a new attempt. *)
Fixpoint start (epochs : list epoch) (s : BinanceL2BookBuilder)
  : BinanceL2BookBuilder :=
  match epochs with
  | [] => s
  | ep :: epochs' =>
      match _run_once ep s with
      | Done Returned s' => start epochs' s'
      | Done Awaiting s' => s'
      | Raised _ s' =>
          start epochs' (set_resync_count (_resync_count s' + 1) s')
      end
  end.
End Methods.

End BinanceL2.

(** ** exchanges/coinbase_l3.py *)

Module CoinbaseL3.

(** A message of the [full] channel: the keys the builder reads. *)
Record message := {
  type : jval;
  sequence : jval;
  time : jval;
  order_id : jval;
  maker_order_id : jval;
  msg_side : jval;
  msg_price : jval;
  msg_size : jval;
  remaining_size : jval;
  new_size : jval;
}.

(** The level-3 snapshot: entries are [price, size, order_id]. *)
Record snapshot := {
  snap_sequence : jval;
  snap_bids : list (jval * jval * jval);
  snap_asks : list (jval * jval * jval);
}.

(** The level-2 snapshot of the fallback: entries start with [price, size]. *)
Record snapshot_l2 := {
  l2_bids : list (jval * jval);
  l2_asks : list (jval * jval);
}.

(** A value of [self.orders]. *)
Record order := { o_side : jval; o_price : Qc; o_size : Qc }.

(** [self.levels]: a dict with exactly the keys ["buy"] and ["sell"]. *)
Record levels_t := { buy : gmap Qc Qc; sell : gmap Qc Qc }.

Definition levels_get (sd : jval) (l : levels_t) : option (gmap Qc Qc) :=
  match sd with
  | JStr s => if decide (s = "buy") then Some (buy l)
              else if decide (s = "sell") then Some (sell l)
              else None
  | _ => None
  end.

(** In-place update of the dict [self.levels[side]]. *)
Definition levels_set (sd : jval) (m : gmap Qc Qc) (l : levels_t) : levels_t :=
  match sd with
  | JStr s => if decide (s = "buy") then {| buy := m; sell := sell l |}
              else if decide (s = "sell") then {| buy := buy l; sell := m |}
              else l
  | _ => l
  end.

Record CoinbaseL3BookBuilder := {
  product_id : string;
  top_n : Z;
  allow_l2_fallback : bool;
  orders : gmap jval order;
  levels : levels_t;
  last_sequence : Z;
  _resync_count : Z;
  _snapshot_failures : Z;
  bus : list Bus.action;
}.

Definition set_orders (m : gmap jval order) (s : CoinbaseL3BookBuilder) :=
  {| product_id := product_id s; top_n := top_n s;
     allow_l2_fallback := allow_l2_fallback s;
     orders := m; levels := levels s; last_sequence := last_sequence s;
     _resync_count := _resync_count s;
     _snapshot_failures := _snapshot_failures s; bus := bus s |}.
Definition set_levels (l : levels_t) (s : CoinbaseL3BookBuilder) :=
  {| product_id := product_id s; top_n := top_n s;
     allow_l2_fallback := allow_l2_fallback s;
     orders := orders s; levels := l; last_sequence := last_sequence s;
     _resync_count := _resync_count s;
     _snapshot_failures := _snapshot_failures s; bus := bus s |}.
Definition set_last_sequence (z : Z) (s : CoinbaseL3BookBuilder) :=
  {| product_id := product_id s; top_n := top_n s;
     allow_l2_fallback := allow_l2_fallback s;
     orders := orders s; levels := levels s; last_sequence := z;
     _resync_count := _resync_count s;
     _snapshot_failures := _snapshot_failures s; bus := bus s |}.
Definition set_resync_count (z : Z) (s : CoinbaseL3BookBuilder) :=
  {| product_id := product_id s; top_n := top_n s;
     allow_l2_fallback := allow_l2_fallback s;
     orders := orders s; levels := levels s; last_sequence := last_sequence s;
     _resync_count := z;
     _snapshot_failures := _snapshot_failures s; bus := bus s |}.
Definition set_snapshot_failures (z : Z) (s : CoinbaseL3BookBuilder) :=
  {| product_id := product_id s; top_n := top_n s;
     allow_l2_fallback := allow_l2_fallback s;
     orders := orders s; levels := levels s; last_sequence := last_sequence s;
     _resync_count := _resync_count s;
     _snapshot_failures := z; bus := bus s |}.
Definition set_bus (l : list Bus.action) (s : CoinbaseL3BookBuilder) :=
  {| product_id := product_id s; top_n := top_n s;
     allow_l2_fallback := allow_l2_fallback s;
     orders := orders s; levels := levels s; last_sequence := last_sequence s;
     _resync_count := _resync_count s;
     _snapshot_failures := _snapshot_failures s; bus := l |}.

Definition no_levels : levels_t := {| buy := ∅; sell := ∅ |}.

(** [__post_init__] *)
Definition new (product : string) (n : Z) (fallback : bool)
  : CoinbaseL3BookBuilder :=
  {| product_id := product; top_n := n; allow_l2_fallback := fallback;
     orders := ∅; levels := no_levels; last_sequence := 0;
     _resync_count := 0; _snapshot_failures := 0; bus := [] |}.

(** [self.levels[side]], a [KeyError] for any other key. *)
Definition level_of (sd : jval) : M CoinbaseL3BookBuilder (gmap Qc Qc) :=
  do s <- get;
  match levels_get sd (levels s) with
  | Some m => ret m
  | None => raise KeyError
  end.

Definition store_level (sd : jval) (m : gmap Qc Qc)
  : M CoinbaseL3BookBuilder unit :=
  modify (fun s => set_levels (levels_set sd m (levels s)) s).

(** [level.get(price, 0.0)] *)
Definition qty_at (p : Qc) (m : gmap Qc Qc) : Qc := default 0%Qc (m !! p).

Definition _add_order (oid sd : jval) (p sz : Qc)
  : M CoinbaseL3BookBuilder unit :=
  exec modify (fun s =>
    set_orders (<[oid := {| o_side := sd; o_price := p; o_size := sz |}]> (orders s)) s);
  do level <- level_of sd;
  store_level sd (<[p := (qty_at p level + sz)%Qc]> level).

Definition _remove_order (oid : jval) : M CoinbaseL3BookBuilder unit :=
  do s <- get;
  match orders s !! oid with
  | None => ret tt
  | Some o =>
      exec modify (set_orders (delete oid (orders s)));
      do level <- level_of (o_side o);
      let new_size := (qty_at (o_price o) level - o_size o)%Qc in
      if decide (new_size <= 0)%Qc then
        store_level (o_side o) (delete (o_price o) level)
      else
        store_level (o_side o) (<[o_price o := new_size]> level)
  end.

Definition is_type (name : string) (m : message) : bool :=
  bool_decide (type m = JStr name).

Section Methods.
Context `{Builtins}.

Definition _apply_message (msg : message) : M CoinbaseL3BookBuilder unit :=
  if is_type "received" msg then ret tt
  else if is_type "open" msg then
    let sz := por (remaining_size msg) (msg_size msg) in
    if truthy (order_id msg) && truthy (msg_side msg)
       && truthy (msg_price msg) && truthy sz then
      do p <- lift (float (msg_price msg));
      do z <- lift (float sz);
      _add_order (order_id msg) (msg_side msg) p z
    else ret tt
  else if is_type "match" msg then
    let oid := maker_order_id msg in
    if negb (truthy oid) || bool_decide (msg_size msg = JNull) then ret tt
    else
      do s <- get;
      match orders s !! oid with
      | None => ret tt
      | Some o =>
          do trade_size <- lift (float (msg_size msg));
          let prev_size := o_size o in
          if decide (prev_size <= trade_size)%Qc then _remove_order oid
          else
            exec modify (set_orders
              (<[oid := {| o_side := o_side o; o_price := o_price o;
                           o_size := (prev_size - trade_size)%Qc |}]> (orders s)));
            do level <- level_of (o_side o);
            store_level (o_side o)
              (<[o_price o := max0 (qty_at (o_price o) level - trade_size)%Qc]> level)
      end
  else if is_type "done" msg then
    if truthy (order_id msg) then _remove_order (order_id msg) else ret tt
  else if is_type "change" msg then
    let oid := order_id msg in
    if negb (truthy oid) || bool_decide (new_size msg = JNull) then ret tt
    else
      do s <- get;
      match orders s !! oid with
      | None => ret tt
      | Some o =>
          do ns <- lift (float (new_size msg));
          if decide (ns <= 0)%Qc then _remove_order oid
          else
            do level <- level_of (o_side o);
            do ns' <- lift (float (new_size msg));
            let delta := (ns' - o_size o)%Qc in
            exec store_level (o_side o)
              (<[o_price o := max0 (qty_at (o_price o) level + delta)%Qc]> level);
            do ns'' <- lift (float (new_size msg));
            modify (fun s' => set_orders
              (<[oid := {| o_side := o_side o; o_price := o_price o; o_size := ns'' |}]>
                 (orders s')) s')
      end
  else ret tt.

Fixpoint load_side (sd : string) (l : list (jval * jval * jval))
  : M CoinbaseL3BookBuilder unit :=
  match l with
  | [] => ret tt
  | (p, sz, oid) :: l' =>
      do pf <- lift (float p);
      do sf <- lift (float sz);
      exec _add_order oid (JStr sd) pf sf;
      load_side sd l'
  end.

Definition _load_snapshot (snap : snapshot) : M CoinbaseL3BookBuilder unit :=
  exec modify (set_orders ∅);
  exec modify (set_levels no_levels);
  exec load_side "buy" (snap_bids snap);
  load_side "sell" (snap_asks snap).

Definition _top_levels (s : CoinbaseL3BookBuilder)
  : list (Qc * Qc) * list (Qc * Qc) :=
  (slice_to (top_n s) (BinanceL2.sorted_desc (buy (levels s))),
   slice_to (top_n s) (BinanceL2.sorted_asc (sell (levels s)))).

(** The timestamp [_emit_state] derives from [msg.get("time")]: any
    failure of the conversion gives [None]. *)
Definition ts_ms_of (ts_exchange : jval) : jval :=
  match ts_exchange with
  | JStr t =>
      if truthy ts_exchange then
        match iso_ms_of_str t with
        | Some z => JNum (Q2Qc (z # 1))
        | None => JNull
        end
      else JNull
  | _ => JNull
  end.

Definition book_state (now : Qc) (ts_exchange : jval)
    (s : CoinbaseL3BookBuilder) : option Models.BookState :=
  let '(bs, as_) := _top_levels s in
  match bs, as_ with
  | (bb, _) :: _, (ba, _) :: _ =>
      Some {| Models.venue := "coinbase";
              Models.symbol := product_id s;
              Models.ts_exchange_ms := ts_ms_of ts_exchange;
              Models.ts_local_ms := BinanceL2.now_ms now;
              Models.kind := "L3";
              Models.best_bid := bb;
              Models.best_ask := ba;
              Models.bids := bs;
              Models.asks := as_;
              Models.l3_order_count := Some (size (orders s)) |}
  | _, _ => None
  end.

Definition _emit_state (now : Qc) (ts_exchange : jval)
  : M CoinbaseL3BookBuilder unit :=
  do s <- get;
  match book_state now ts_exchange s with
  | None => ret tt
  | Some state =>
      modify (set_bus (bus s ++ [Bus.create_task_publish
                {| Bus.type := "book_state"; Bus.payload := Bus.Book state |}]))
  end.

(** [[(float(p), float(q)) for p, q, *_ in side[: self.top_n]]] *)
Fixpoint floats (l : list (jval * jval)) : exn + list (Qc * Qc) :=
  match l with
  | [] => inr []
  | (p, q) :: l' =>
      match float p with
      | inl e => inl e
      | inr pf =>
          match float q with
          | inl e => inl e
          | inr qf =>
              match floats l' with
              | inl e => inl e
              | inr r => inr ((pf, qf) :: r)
              end
          end
      end
  end.

Definition _emit_state_l2 (now : Qc) (bs as_ : list (jval * jval))
  : M CoinbaseL3BookBuilder unit :=
  do s <- get;
  do top_bids <- lift (floats (slice_to (top_n s) bs));
  do top_asks <- lift (floats (slice_to (top_n s) as_));
  match top_bids, top_asks with
  | (bb, _) :: _, (ba, _) :: _ =>
      let t := BinanceL2.now_ms now in
      let state :=
        {| Models.venue := "coinbase";
           Models.symbol := product_id s;
           Models.ts_exchange_ms := JNum (Q2Qc (t # 1));
           Models.ts_local_ms := t;
           Models.kind := "L2";
           Models.best_bid := bb;
           Models.best_ask := ba;
           Models.bids := top_bids;
           Models.asks := top_asks;
           Models.l3_order_count := None |} in
      modify (set_bus (bus s ++ [Bus.create_task_publish
                {| Bus.type := "book_state"; Bus.payload := Bus.Book state |}]))
  | _, _ => ret tt
  end.

(** [_run_rest_only]: one poll per second until the stop event; [polls]
    are the results of the successive [_fetch_snapshot_l2] calls. *)
Fixpoint _run_rest_only (polls : list (Qc * option snapshot_l2))
  : M CoinbaseL3BookBuilder unit :=
  match polls with
  | [] => ret tt
  | (now, None) :: polls' => _run_rest_only polls'
  | (now, Some snap) :: polls' =>
      exec _emit_state_l2 now (l2_bids snap) (l2_asks snap);
      _run_rest_only polls'
  end.

(** One iteration of the loop over [buffered]. *)
Definition replay_one (arrival : Qc * message) : M CoinbaseL3BookBuilder unit :=
  let '(now, msg) := arrival in
  do seq <- lift (int_or0 (sequence msg));
  do s <- get;
  if decide (seq <= last_sequence s) then ret tt
  else
    exec _apply_message msg;
    exec modify (set_last_sequence seq);
    _emit_state now (time msg).

Fixpoint replay (msgs : list (Qc * message)) : M CoinbaseL3BookBuilder unit :=
  match msgs with
  | [] => ret tt
  | m :: msgs' => exec replay_one m; replay msgs'
  end.

(** One iteration of the live loop. *)
Definition live_one (arrival : Qc * message) : M CoinbaseL3BookBuilder unit :=
  let '(now, msg) := arrival in
  do seq <- lift (int_or0 (sequence msg));
  do s <- get;
  if decide (seq <= last_sequence s) then ret tt
  else if decide (seq > last_sequence s + 1) then
    raise (RuntimeError "coinbase_seq_gap")
  else
    exec _apply_message msg;
    exec modify (set_last_sequence seq);
    _emit_state now (time msg).

Fixpoint live_loop (msgs : list (Qc * message)) : M CoinbaseL3BookBuilder unit :=
  match msgs with
  | [] => ret tt
  | m :: msgs' => exec live_one m; live_loop msgs'
  end.

(** What one connection attempt is given: the result of the level-3
    fetch, the level-2 polls made if it falls back, and the messages. *)
Record epoch := {
  fetched : option snapshot;
  polls : list (Qc * option snapshot_l2);
  buffered : list (Qc * message);
  live : list (Qc * message);
}.

Definition _run_once (ep : epoch) : M CoinbaseL3BookBuilder unit :=
  exec modify (set_orders ∅);
  exec modify (set_levels no_levels);
  exec modify (set_last_sequence 0);
  match fetched ep with
  | None =>
      exec modify (fun s => set_snapshot_failures (_snapshot_failures s + 1) s);
      do s <- get;
      if allow_l2_fallback s && bool_decide (3 <= _snapshot_failures s) then
        _run_rest_only (polls ep)
      else raise (RuntimeError "coinbase_l3_snapshot_failed")
  | Some snap =>
      do snap_seq <- lift (int_or0 (snap_sequence snap));
      exec _load_snapshot snap;
      exec modify (set_last_sequence snap_seq);
      exec replay (buffered ep);
      live_loop (live ep)
  end.

Fixpoint start (epochs : list epoch) (s : CoinbaseL3BookBuilder)
  : CoinbaseL3BookBuilder :=
  match epochs with
  | [] => s
  | ep :: epochs' =>
      match _run_once ep s with
      | Done _ s' => start epochs' s'
      | Raised _ s' =>
          start epochs' (set_resync_count (_resync_count s' + 1) s')
      end
  end.
End Methods.
End CoinbaseL3.

(** ** storage.py *)

Module Storage.

(** The flat row [handle_book] builds.  [bids] and [asks] stand for the
    JSON text of the level lists. *)
Record row := {
  ts_ms : Z;
  ts_exchange_ms : jval;
  venue : string;
  symbol : string;
  kind : string;
  best_bid : Qc;
  best_ask : Qc;
  bids : list (Qc * Qc);
  asks : list (Qc * Qc);
  l3_order_count : option nat;
}.

(** A file of the output directory: a page that reads back as the rows
    written, or one that [read_parquet] cannot read. *)
Inductive file :=
| Page (rows : list row)
| Unreadable.

(** The writer and the directory it owns.  [_path_for_bucket] names a file
    after the bucket start, one name per bucket: [files] is keyed by it. *)
Record RollingParquetWriter := {
  window_sec : Z;
  _bucket_ms : option Z;
  _rows : list row;
  files : gmap Z file;
}.

Definition set_bucket_ms (b : option Z) (w : RollingParquetWriter) :=
  {| window_sec := window_sec w; _bucket_ms := b; _rows := _rows w;
     files := files w |}.
Definition set_rows (l : list row) (w : RollingParquetWriter) :=
  {| window_sec := window_sec w; _bucket_ms := _bucket_ms w; _rows := l;
     files := files w |}.
Definition set_files (f : gmap Z file) (w : RollingParquetWriter) :=
  {| window_sec := window_sec w; _bucket_ms := _bucket_ms w; _rows := _rows w;
     files := f |}.

Definition _bucket_start_ms (ts window : Z) : exn + Z :=
  let step := window * 1000 in
  if decide (step = 0) then inl ZeroDivisionError
  else inr ((ts / step) * step).

(** [self._bucket_ms or 0] *)
Definition bucket_or0 (b : option Z) : Z := default 0 b.

Definition key (r : row) : Z * string := (ts_ms r, venue r).

(** [drop_duplicates(subset=["ts_ms", "venue"])]: the first row of each key
    is kept, in place. *)
Fixpoint drop_duplicates_from (seen : list (Z * string)) (l : list row)
  : list row :=
  match l with
  | [] => []
  | r :: l' =>
      if decide (key r ∈ seen) then drop_duplicates_from seen l'
      else r :: drop_duplicates_from (key r :: seen) l'
  end.
Definition drop_duplicates (l : list row) : list row :=
  drop_duplicates_from [] l.

(** [sort_values("ts_ms")]: ascending; the order pandas gives rows of equal
    [ts_ms] is not specified, and no statement below depends on it. *)
Definition ts_le (x y : row) : Prop := ts_ms x <= ts_ms y.
#[global] Instance ts_le_dec x y : Decision (ts_le x y).
Proof. unfold ts_le. apply _. Defined.
Definition sort_values (l : list row) : list row := merge_sort ts_le l.

Definition flush : M RollingParquetWriter unit :=
  do w <- get;
  match _rows w with
  | [] => ret tt
  | _ =>
      let path := bucket_or0 (_bucket_ms w) in
      let df :=
        match files w !! path with
        | Some (Page existing) =>
            sort_values (drop_duplicates (existing ++ _rows w))
        | Some Unreadable => _rows w
        | None => _rows w
        end in
      exec modify (set_files (<[path := Page df]> (files w)));
      modify (set_rows [])
  end.

Definition write (r : row) : M RollingParquetWriter unit :=
  do w <- get;
  do bucket_ms <- lift (_bucket_start_ms (ts_ms r) (window_sec w));
  exec (match _bucket_ms w with
       | None => modify (set_bucket_ms (Some bucket_ms))
       | Some _ => ret tt
       end);
  do w' <- get;
  exec (if decide (Some bucket_ms = _bucket_ms w') then ret tt
       else exec flush; modify (set_bucket_ms (Some bucket_ms)));
  modify (fun w'' => set_rows (_rows w'' ++ [r]) w'').

Record StorageSink := {
  _writer : RollingParquetWriter;
  _flush_sec : Qc;
  _last_flush : Qc;
  counts : Z;
}.

(** [StorageSink.__init__] over a directory holding [dir]. *)
Definition new (dir : gmap Z file) (window : Z) (flush_sec : Qc) : StorageSink :=
  {| _writer := {| window_sec := window; _bucket_ms := None; _rows := [];
                   files := dir |};
     _flush_sec := flush_sec; _last_flush := 0%Qc; counts := 0 |}.

(** A writer method called on [self._writer]. *)
Definition on_writer {A} (m : M RollingParquetWriter A) : M StorageSink A :=
  fun s =>
    let put w := {| _writer := w; _flush_sec := _flush_sec s;
                    _last_flush := _last_flush s; counts := counts s |} in
    match m (_writer s) with
    | Done a w => Done a (put w)
    | Raised e w => Raised e (put w)
    end.

(** The row of a payload; reading the attributes of a payload that is no
    [BookState] raises. *)
Definition row_of (payload : Bus.any) : exn + row :=
  match payload with
  | Bus.Book book =>
      inr {| ts_ms := Models.ts_local_ms book;
             ts_exchange_ms := Models.ts_exchange_ms book;
             venue := Models.venue book;
             symbol := Models.symbol book;
             kind := Models.kind book;
             best_bid := Models.best_bid book;
             best_ask := Models.best_ask book;
             bids := Models.bids book;
             asks := Models.asks book;
             l3_order_count := Models.l3_order_count book |}
  | Bus.Other => inl AttributeError
  end.

Definition handle_book (payload : Bus.any) : M StorageSink unit :=
  do r <- lift (row_of payload);
  on_writer (write r).

(** One iteration of the loop of [run]: the event [bus.next()] gave and
    the clock reading [time.time()] after handling it. *)
Definition run_one (arrival : Qc * Bus.Event) : M StorageSink unit :=
  let '(now, event) := arrival in
  if decide (Bus.type event = "book_state") then
    exec handle_book (Bus.payload event);
    exec modify (fun s => {| _writer := _writer s; _flush_sec := _flush_sec s;
                            _last_flush := _last_flush s;
                            counts := counts s + 1 |});
    do s <- get;
    if decide (_flush_sec s <= now - _last_flush s)%Qc then
      exec on_writer flush;
      modify (fun s' => {| _writer := _writer s'; _flush_sec := _flush_sec s';
                           _last_flush := now; counts := counts s' |})
    else ret tt
  else ret tt.

(** [run] over the events delivered before the stop event is set. *)
Fixpoint run (events : list (Qc * Bus.Event)) : M StorageSink unit :=
  match events with
  | [] => ret tt
  | ev :: events' => exec run_one ev; run events'
  end.

End Storage.

(** ** dashboard.py: the choice of the session shown *)

Module Dashboard.

(** [sessions[-1]] of an empty list. *)
Inductive error := IndexError.

Section Sessions.
(** The output directory is an input: what [_latest_session_from_file]
    reads from the file [LATEST] ([None] when the file is missing or
    unreadable), and for each session name whether [_session_has_data]
    finds a page in its directory. *)
Variable has_data : string -> bool.

Definition _pick_default_session (latest : option string)
    (sessions : list string) : error + string :=
  let eligible :=
    match latest with
    | Some l =>
        if truthy (JStr l) && bool_decide (l ∈ sessions) && has_data l
        then Some l else None
    | None => None
    end in
  match eligible with
  | Some l => inr l
  | None =>
      match List.find has_data (reverse sessions) with
      | Some name => inr name
      | None =>
          match last sessions with
          | Some name => inr name
          | None => inl IndexError
          end
      end
  end.
End Sessions.
End Dashboard.

(** * Properties *)

(** ** Scenarios of the specification *)

Module Scenario.
Import BinanceL2.

Definition num (z : Z) : jval := JNum (Q2Qc (z # 1)).
Definition dec (z : Z) (d : positive) : jval := JNum (Q2Qc (z # d)).
Definition price (z : Z) (d : positive) : Qc := Q2Qc (z # d).

(** [{U: U, u: u, b: b, a: a}], with no event time. *)
Definition delta (U u : Z) (b a : list (jval * jval)) : depth_event :=
  {| ev_U := num U; ev_u := num u; ev_E := JNull; ev_b := b; ev_a := a |}.

(** Scenario A: [{lastUpdateId: 100, bids: [[10.0, 1]], asks: [[10.5, 1]]}]
    and the buffered deltas [{U: 95, u: 100}], [{U: 101, u: 101, b: [[10.0, 0]]}]. *)
Definition snapshot_A : snapshot :=
  {| lastUpdateId := num 100;
     snap_bids := [(dec 10 1, num 1)];
     snap_asks := [(dec 105 10, num 1)] |}.
Definition buffered_A : list (Qc * depth_event) :=
  [(0%Qc, delta 95 100 [] []); (0%Qc, delta 101 101 [(dec 10 1, num 0)] [])].
Definition epoch_A (live : list (Qc * depth_event)) : epoch :=
  {| fetched := [Some snapshot_A]; buffered := buffered_A; live := live |}.

(** Scenario B: the delta [{U: 105, u: 110}]. *)
Definition delta_B : depth_event := delta 105 110 [] [].

Definition builder0 : BinanceL2BookBuilder := new "BTCUSDT" 10 false.

(** After scenario A, the live delta [{U: 102, u: 102, b: [[11, 1]]}] puts a
    bid above the resting ask 10.5. *)
Definition live_crossing : list (Qc * depth_event) :=
  [(0%Qc, delta 102 102 [(dec 11 1, num 1)] [])].
Definition crossed_state : Models.BookState :=
  {| Models.venue := "binance"; Models.symbol := "BTCUSDT";
     Models.ts_exchange_ms := num 0; Models.ts_local_ms := 0;
     Models.kind := "L2";
     Models.best_bid := price 11 1; Models.best_ask := price 21 2;
     Models.bids := [(price 11 1, price 1 1)];
     Models.asks := [(price 21 2, price 1 1)];
     Models.l3_order_count := None |}.

(** After scenario A, the live delta [{U: 102, u: 102, b: [[10, -1]]}]. *)
Definition live_negative : list (Qc * depth_event) :=
  [(0%Qc, delta 102 102 [(dec 10 1, num (-1))] [])].
Definition negative_state : Models.BookState :=
  {| Models.venue := "binance"; Models.symbol := "BTCUSDT";
     Models.ts_exchange_ms := num 0; Models.ts_local_ms := 0;
     Models.kind := "L2";
     Models.best_bid := price 10 1; Models.best_ask := price 21 2;
     Models.bids := [(price 10 1, price (-1) 1)];
     Models.asks := [(price 21 2, price 1 1)];
     Models.l3_order_count := None |}.
End Scenario.

(** ** Vocabulary of the statements *)

Module Ordering.

(** A builder publishes from a loop that runs one step per message; [cursor]
    is its sequence cursor and [bus_of] the actions it has issued. *)
Section Loop.
Context {S E : Type} (cursor : S -> Z) (bus_of : S -> list Bus.action)
  (step : E -> M S unit).

Fixpoint for_each (l : list E) : M S unit :=
  match l with
  | [] => ret tt
  | e :: l' => exec step e; for_each l'
  end.

(** The values of the cursor at which the steps of the loop issued an
    action, in the order of the actions. *)
Fixpoint published_at (l : list E) (s : S) : list Z :=
  match l with
  | [] => []
  | e :: l' =>
      match step e s with
      | Done _ s' =>
          (if decide (length (bus_of s) < length (bus_of s'))%nat
           then [cursor s'] else [])
          ++ published_at l' s'
      | Raised _ _ => []
      end
  end.

(** A step never lowers the cursor, and raises it when it issues an action. *)
Definition advancing : Prop :=
  forall e s s', step e s = Done tt s' ->
    cursor s <= cursor s'
    /\ ((length (bus_of s) < length (bus_of s'))%nat -> cursor s < cursor s').

(** A step issues at most one action, a detached publish task, and none
    when it raises. *)
Definition spawning : Prop :=
  forall e s,
    match step e s with
    | Done _ s' =>
        bus_of s' = bus_of s
        \/ exists ev, bus_of s' = bus_of s ++ [Bus.create_task_publish ev]
    | Raised _ s' => bus_of s' = bus_of s
    end.
End Loop.

Definition detached (a : Bus.action) : Prop :=
  exists e, a = Bus.create_task_publish e.
Definition awaited (a : Bus.action) : Prop :=
  exists e, a = Bus.await_publish e.
End Ordering.

Module L2Spec.
Import BinanceL2.

Definition counter_is (c : Z) (s : BinanceL2BookBuilder) : Prop :=
  _resync_count s = c.

Definition gap : exn := RuntimeError "binance_l2_gap".

Definition cursor_bus_is (i : Z) (b : list Bus.action)
    (s : BinanceL2BookBuilder) : Prop :=
  book_update_id s = i /\ bus s = b.

(** Every level of a side has a strictly positive quantity. *)
Definition positive_levels (m : gmap Qc Qc) : Prop :=
  map_Forall (fun _ q => (0 < q)%Qc) m.

(** No entry of a diff carries a negative quantity. *)
Definition nonneg_entries `{Builtins} (l : list (jval * jval)) : Prop :=
  Forall (fun pq => forall x, float pq.2 = inr x -> (0 <= x)%Qc) l.
Definition nonneg_event `{Builtins} (ev : depth_event) : Prop :=
  nonneg_entries (ev_b ev) /\ nonneg_entries (ev_a ev).

(** What holds of every [BookState] the builder emits: both sides are
    non-empty, [best_bid] and [best_ask] are the prices of their first
    elements, bids are strictly descending and asks strictly ascending in
    price, and every quantity is strictly positive. *)
Definition well_formed (b : Models.BookState) : Prop :=
  (exists q rest, Models.bids b = (Models.best_bid b, q) :: rest)
  /\ (exists q rest, Models.asks b = (Models.best_ask b, q) :: rest)
  /\ StronglySorted (fun x y => (y.1 < x.1)%Qc) (Models.bids b)
  /\ StronglySorted (fun x y => (x.1 < y.1)%Qc) (Models.asks b)
  /\ Forall (fun l => (0 < l.2)%Qc) (Models.bids b)
  /\ Forall (fun l => (0 < l.2)%Qc) (Models.asks b).

Definition book_event (b : Models.BookState) : Bus.Event :=
  {| Bus.type := "book_state"; Bus.payload := Bus.Book b |}.

(** A detached publish task of a well-formed [BookState]. *)
Definition good_action (a : Bus.action) : Prop :=
  exists b, a = Bus.create_task_publish (book_event b) /\ well_formed b.

(** The bus holds [bus0] followed by good actions only. *)
Definition good_bus (bus0 : list Bus.action) (s : BinanceL2BookBuilder) : Prop :=
  exists new, bus s = bus0 ++ new /\ Forall good_action new.

Definition book_inv (bus0 : list Bus.action) (s : BinanceL2BookBuilder) : Prop :=
  positive_levels (bids s) /\ positive_levels (asks s) /\ good_bus bus0 s.
End L2Spec.

Module L3Spec.
Import CoinbaseL3.

(** What an order adds to the level [(sd, p)]. *)
Definition contributes (sd : jval) (p : Qc) (o : order) : Qc :=
  if decide (o_side o = sd /\ o_price o = p) then o_size o else 0%Qc.

(** The sum of the remaining sizes of the live orders of side [sd] at
    price [p]. *)
Definition live_quantity (sd : jval) (p : Qc) (m : gmap jval order) : Qc :=
  map_fold (fun _ o acc => (contributes sd p o + acc)%Qc) 0%Qc m.

(** The aggregated side [lv] holds, at each price, the sum of the live
    orders there, and has no level where that sum is zero. *)
Definition level_matches (sd : jval) (lv : gmap Qc Qc) (m : gmap jval order)
  : Prop :=
  forall p, lv !! p = if decide (live_quantity sd p m = 0%Qc) then None
                      else Some (live_quantity sd p m).

Definition valid_order (o : order) : Prop :=
  (0 < o_size o)%Qc /\ (o_side o = JStr "buy" \/ o_side o = JStr "sell").

Definition consistent (s : CoinbaseL3BookBuilder) : Prop :=
  map_Forall (fun _ o => valid_order o) (orders s)
  /\ level_matches (JStr "buy") (buy (levels s)) (orders s)
  /\ level_matches (JStr "sell") (sell (levels s)) (orders s).

Definition with_size (z : Qc) (o : order) : order :=
  {| o_side := o_side o; o_price := o_price o; o_size := z |}.

Definition snapshot_failed : exn := RuntimeError "coinbase_l3_snapshot_failed".

Definition cursor_bus_is (i : Z) (b : list Bus.action)
    (s : CoinbaseL3BookBuilder) : Prop :=
  last_sequence s = i /\ bus s = b.

(** The messages of an attempt in the order it handles them: the buffered
    ones by the replay loop, then the live ones by the live loop. *)
Definition attempt_step `{Builtins} (m : Qc * message + Qc * message)
  : M CoinbaseL3BookBuilder unit :=
  match m with
  | inl a => replay_one a
  | inr a => live_one a
  end.
Definition attempt_messages (buffered live : list (Qc * message))
  : list (Qc * message + Qc * message) :=
  (inl <$> buffered) ++ (inr <$> live).

(** A detached publish task of a state of the fallback: tagged [L2], with
    no order count. *)
Definition l2_action (a : Bus.action) : Prop :=
  exists b,
    a = Bus.create_task_publish (L2Spec.book_event b)
    /\ Models.kind b = "L2"
    /\ Models.l3_order_count b = None.

(** The builder during the fallback: no order, no level, no sequence
    cursor, and a bus extended by fallback states only. *)
Definition fallback_inv (bus0 : list Bus.action) (failures : Z)
    (s : CoinbaseL3BookBuilder) : Prop :=
  orders s = ∅ /\ levels s = no_levels /\ last_sequence s = 0
  /\ _snapshot_failures s = failures
  /\ exists new, bus s = bus0 ++ new /\ Forall l2_action new.

(** The builder as [_run_once] has it after a failed level-3 fetch. *)
Definition after_failed_fetch (s : CoinbaseL3BookBuilder) : CoinbaseL3BookBuilder :=
  set_snapshot_failures (_snapshot_failures s + 1)
    (set_last_sequence 0 (set_levels no_levels (set_orders ∅ s))).
End L3Spec.

Module ScenarioL3.
Import CoinbaseL3.

(** [{"type": "open", "order_id": oid, "side": sd, "price": p,
      "remaining_size": sz}] *)
Definition open_msg (oid sd p sz : string) : message :=
  {| type := JStr "open"; sequence := JNull; time := JNull;
     order_id := JStr oid; maker_order_id := JNull; msg_side := JStr sd;
     msg_price := JStr p; msg_size := JNull; remaining_size := JStr sz;
     new_size := JNull |}.

(** [{"type": "match", "maker_order_id": oid, "size": sz}] *)
Definition match_msg (oid sz : string) : message :=
  {| type := JStr "match"; sequence := JNull; time := JNull;
     order_id := JNull; maker_order_id := JStr oid; msg_side := JNull;
     msg_price := JNull; msg_size := JStr sz; remaining_size := JNull;
     new_size := JNull |}.

(** [{"type": "done", "order_id": oid}] *)
Definition done_msg (oid : string) : message :=
  {| type := JStr "done"; sequence := JNull; time := JNull;
     order_id := JStr oid; maker_order_id := JNull; msg_side := JNull;
     msg_price := JNull; msg_size := JNull; remaining_size := JNull;
     new_size := JNull |}.

Definition builder0 : CoinbaseL3BookBuilder := new "BTC-USD" 10 true.

(** An attempt with the level-3 snapshot
    [{"sequence": 10, "bids": [["10.0", "1", "b1"]], "asks": [["10.5", "1", "a1"]]}]
    and the live message 11, an [open] of a second ask. *)
Definition snapshot_10 : snapshot :=
  {| snap_sequence := JNum (Q2Qc (10 # 1));
     snap_bids := [(JStr "10.0", JStr "1", JStr "b1")];
     snap_asks := [(JStr "10.5", JStr "1", JStr "a1")] |}.
Definition open_11 : message :=
  {| type := JStr "open"; sequence := JNum (Q2Qc (11 # 1)); time := JNull;
     order_id := JStr "a2"; maker_order_id := JNull; msg_side := JStr "sell";
     msg_price := JStr "10.5"; msg_size := JNull; remaining_size := JStr "2";
     new_size := JNull |}.
Definition epoch_10 : epoch :=
  {| fetched := Some snapshot_10; polls := []; buffered := [];
     live := [(0%Qc, open_11)] |}.

(** An attempt whose level-3 fetch fails, with one level-2 poll
    [{"bids": [["10.0", "1", 2]], "asks": [["10.5", "3", 1]]}]. *)
Definition poll : snapshot_l2 :=
  {| l2_bids := [(JStr "10.0", JStr "1")]; l2_asks := [(JStr "10.5", JStr "3")] |}.
Definition failing_epoch : epoch :=
  {| fetched := None; polls := [(0%Qc, Some poll)]; buffered := []; live := [] |}.
Definition fallback_state : Models.BookState :=
  {| Models.venue := "coinbase"; Models.symbol := "BTC-USD";
     Models.ts_exchange_ms := JNum (Q2Qc (0 # 1)); Models.ts_local_ms := 0;
     Models.kind := "L2";
     Models.best_bid := Q2Qc (100 # 10); Models.best_ask := Q2Qc (105 # 10);
     Models.bids := [(Q2Qc (100 # 10), Q2Qc (1 # 1))];
     Models.asks := [(Q2Qc (105 # 10), Q2Qc (3 # 1))];
     Models.l3_order_count := None |}.
End ScenarioL3.

Module StorageSpec.
Import Storage.

(** [write] called on each row of a batch, in order. *)
Fixpoint write_all (l : list row) : M RollingParquetWriter unit :=
  match l with
  | [] => ret tt
  | r :: l' => exec write r; write_all l'
  end.

(** Two batches written and flushed one after the other. *)
Definition two_flushes (b1 b2 : list row) : M RollingParquetWriter unit :=
  exec write_all b1; exec flush; exec write_all b2; flush.

(** The row falls into the bucket that starts at [bk]. *)
Definition in_bucket (window bk : Z) (r : row) : Prop :=
  _bucket_start_ms (ts_ms r) window = inr bk.

(** Two events for the sink: one whose payload is no [BookState], then a
    well-formed one. *)
Definition bad_event : Bus.Event :=
  {| Bus.type := "book_state"; Bus.payload := Bus.Other |}.
Definition bad_then_good : list (Qc * Bus.Event) :=
  [(0%Qc, bad_event); (0%Qc, L2Spec.book_event Scenario.crossed_state)].
Definition sink0 : StorageSink := new ∅ 300 (Q2Qc (5 # 1)).

(** A sink made with [window_sec=0], and two well-formed events for it. *)
Definition sink_no_window : StorageSink := new ∅ 0 (Q2Qc (5 # 1)).
Definition good_twice : list (Qc * Bus.Event) :=
  [(0%Qc, L2Spec.book_event Scenario.crossed_state);
   (0%Qc, L2Spec.book_event Scenario.negative_state)].

(** Two rows of one bucket, for the round trip. *)
Definition row_at (t : Z) (v : string) : row :=
  {| ts_ms := t; ts_exchange_ms := JNull; venue := v; symbol := "X";
     kind := "L2"; best_bid := 0%Qc; best_ask := 0%Qc; bids := []; asks := [];
     l3_order_count := None |}.
Definition writer0 : RollingParquetWriter :=
  {| window_sec := 300; _bucket_ms := None; _rows := []; files := ∅ |}.
End StorageSpec.

Module StoreInv.
Import Storage StorageSpec.

(** The buffered rows all belong to the bucket the writer is filling. *)
Definition homogeneous (w : RollingParquetWriter) : Prop :=
  forall r, r ∈ _rows w ->
    exists b, _bucket_ms w = Some b /\ in_bucket (window_sec w) b r.

(** Every readable page holds rows of its own bucket only. *)
Definition pages_in_bucket (w : RollingParquetWriter) : Prop :=
  forall b page, files w !! b = Some (Page page) ->
    Forall (in_bucket (window_sec w) b) page.

Definition store_inv (w : RollingParquetWriter) : Prop :=
  homogeneous w /\ pages_in_bucket w.

(** The row [handle_book] builds from a [BookState]. *)
Definition row_of_book (book : Models.BookState) : row :=
  {| ts_ms := Models.ts_local_ms book;
     ts_exchange_ms := Models.ts_exchange_ms book;
     venue := Models.venue book;
     symbol := Models.symbol book;
     kind := Models.kind book;
     best_bid := Models.best_bid book;
     best_ask := Models.best_ask book;
     bids := Models.bids book;
     asks := Models.asks book;
     l3_order_count := Models.l3_order_count book |}.

(** The event is tagged [book_state]. *)
Definition is_book_state (ev : Qc * Bus.Event) : Prop :=
  Bus.type ev.2 = "book_state".
#[global] Instance is_book_state_dec ev : Decision (is_book_state ev).
Proof. unfold is_book_state. apply _. Defined.

(** A [book_state] event carries a [BookState]. *)
Definition carries_book (ev : Qc * Bus.Event) : Prop :=
  is_book_state ev -> exists b, Bus.payload ev.2 = Bus.Book b.
End StoreInv.

Module L2More.
Import BinanceL2.

(** The builder as [_run_once] has it after its first three statements. *)
Definition cleared (s : BinanceL2BookBuilder) : BinanceL2BookBuilder :=
  set_book_update_id 0 (set_asks ∅ (set_bids ∅ s)).

Definition bus_is (b : list Bus.action) (s : BinanceL2BookBuilder) : Prop :=
  bus s = b.

(** A fetched snapshot whose [lastUpdateId] is below [fu]. *)
Definition stale_fetch `{Builtins} (fu : Z) (o : option snapshot) : Prop :=
  exists snap i, o = Some snap /\ int (lastUpdateId snap) = inr i /\ i < fu.

(** The end id of the event is at or below the cursor [c]. *)
Definition stale_event `{Builtins} (c : Z) (ev : Qc * depth_event) : Prop :=
  exists u, int_or0 (ev_u ev.2) = inr u /\ u <= c.

(** What a list of parsed diff entries does to the level at price [p]
    that held [d]: the last entry for [p] decides. *)
Definition entry_effect (p : Qc) (d : option Qc) (pq : Qc * Qc) : option Qc :=
  if decide (pq.1 = p) then (if decide (pq.2 = 0%Qc) then None else Some pq.2)
  else d.
Definition entries_effect (p : Qc) (ps : list (Qc * Qc)) (d : option Qc)
  : option Qc :=
  foldl (entry_effect p) d ps.

(** The entries applied to a side, in order. *)
Definition put_levels (ps : list (Qc * Qc)) (m : gmap Qc Qc) : gmap Qc Qc :=
  foldl (fun m pq => put_level pq.1 pq.2 m) m ps.
End L2More.

Module L3More.
Import CoinbaseL3.

(** What an [open] is expected to be: the id is not in the book, the side
    is one of the two, and the size it carries is positive. *)
Definition opens_new_order `{Builtins} (s : CoinbaseL3BookBuilder)
    (msg : message) : Prop :=
  orders s !! order_id msg = None
  /\ (msg_side msg = JStr "buy" \/ msg_side msg = JStr "sell")
  /\ forall z, float (por (remaining_size msg) (msg_size msg)) = inr z ->
               (0 < z)%Qc.

Definition failures_is (c : Z) (s : CoinbaseL3BookBuilder) : Prop :=
  _snapshot_failures s = c.

(** The level-3 fetch of the attempt failed. *)
Definition fetch_failed (ep : epoch) : Prop := fetched ep = None.
#[global] Instance fetch_failed_dec ep : Decision (fetch_failed ep).
Proof.
  unfold fetch_failed. destruct (fetched ep); [right; discriminate | by left].
Defined.

(** The order ids of one side of a level-3 snapshot. *)
Definition ids (l : list (jval * jval * jval)) : list jval := snd <$> l.

(** Every size of the side that parses is positive. *)
Definition positive_sizes `{Builtins} (l : list (jval * jval * jval)) : Prop :=
  Forall (fun e => forall z, float e.1.2 = inr z -> (0 < z)%Qc) l.
End L3More.

Module DashboardSpec.
(** [name] is the last session of the list that has data. *)
Definition last_with_data (has_data : string -> bool) (sessions : list string)
    (name : string) : Prop :=
  exists pre post,
    sessions = pre ++ name :: post
    /\ has_data name = true
    /\ Forall (fun x => has_data x = false) post.

(** What [LATEST] names can be shown: it is a session, and it has data. *)
Definition shown (has_data : string -> bool) (sessions : list string)
    (l : string) : Prop :=
  l <> EmptyString /\ l ∈ sessions /\ has_data l = true.
End DashboardSpec.

(** ** The monad *)

Section Monad_facts.
Context {S : Type} (I : S -> Prop).

Lemma preserves_ret {A} (a : A) : preserves I (ret a).
Proof. intros s Hs. exact Hs. Qed.

Lemma preserves_raise {A} e : preserves I (@raise S A e).
Proof. intros s Hs. exact Hs. Qed.

Lemma preserves_get : preserves I get.
Proof. intros s Hs. exact Hs. Qed.

Lemma preserves_lift {A} (r : exn + A) : preserves I (lift r).
Proof. destruct r; intros s Hs; exact Hs. Qed.

Lemma preserves_modify (f : S -> S) :
  (forall s, I s -> I (f s)) -> preserves I (modify f).
Proof. intros Hf s Hs. apply Hf, Hs. Qed.

Lemma preserves_bind {A B} (m : M S A) (k : A -> M S B) :
  preserves I m -> (forall a, preserves I (k a)) -> preserves I (bind m k).
Proof.
  intros Hm Hk s Hs. unfold bind. specialize (Hm s Hs).
  destruct (m s) as [a s'|e s']; simpl in *; [apply Hk, Hm | exact Hm].
Qed.

Lemma bind_modify {B} (f : S -> S) (k : unit -> M S B) s :
  bind (modify f) k s = k tt (f s).
Proof. reflexivity. Qed.

Lemma preserves_bind_lift {A B} (r : exn + A) (k : A -> M S B) :
  (forall a, r = inr a -> preserves I (k a)) -> preserves I (bind (lift r) k).
Proof.
  intros Hk s Hs. unfold bind, lift. destruct r as [e|a]; simpl; [exact Hs|].
  by apply Hk.
Qed.
End Monad_facts.

Create HintDb frame.

(** Breaks a method body down to its primitive steps; the methods it calls
    are covered by the lemmas of the [frame] database. *)
Ltac frame_step :=
  first
    [ solve [auto with frame nocore]
    | apply preserves_ret | apply preserves_raise | apply preserves_get
    | apply preserves_lift
    | apply preserves_modify; let Hs := fresh in intros ? Hs; exact Hs
    | apply preserves_bind; [| intros ?]
    | match goal with
      | |- preserves _ (match ?x with _ => _ end) => destruct x
      | |- preserves _ (if ?b then _ else _) => destruct b
      | |- preserves _ (let '(_, _) := ?x in _) => destruct x
      end ].

(** ** Loops that publish *)

Section Ordering_facts.
Import Ordering.
Context {S E : Type} (cursor : S -> Z) (bus_of : S -> list Bus.action)
  (step : E -> M S unit).
Hypothesis Hadv : advancing cursor bus_of step.
Hypothesis Hspawn : spawning bus_of step.

Lemma published_at_above (l : list E) (s : S) :
  Forall (fun i => cursor s < i) (published_at cursor bus_of step l s)
  /\ StronglySorted Z.lt (published_at cursor bus_of step l s).
Proof.
  revert s. induction l as [|e l IH]; intros s; simpl;
    [split; constructor|].
  destruct (step e s) as [[] s'|] eqn:Hstep; [|split; constructor].
  destruct (Hadv e s s' Hstep) as [Hle Hlt].
  destruct (IH s') as [Habove Hsorted].
  assert (Habove' : Forall (fun i => cursor s < i)
                      (published_at cursor bus_of step l s')).
  { eapply Forall_impl; [exact Habove|]. simpl. intros. lia. }
  destruct (decide _) as [Hgrow|_]; simpl; [|by split].
  split.
  - constructor; [by apply Hlt | exact Habove'].
  - constructor; [exact Hsorted | exact Habove].
Qed.

Lemma published_at_actions (l : list E) (s : S) :
  exists new,
    bus_of (final (for_each step l s)) = bus_of s ++ new
    /\ Forall detached new
    /\ length new = length (published_at cursor bus_of step l s).
Proof.
  revert s. induction l as [|e l IH]; intros s; simpl.
  - exists []. by rewrite app_nil_r.
  - unfold bind. pose proof (Hspawn e s) as Hs.
    destruct (step e s) as [[] s'|err s'] eqn:Hstep; simpl.
    + destruct (IH s') as (new & Hbus & Hdet & Hlen).
      destruct Hs as [Hsame|[ev Hgrow]].
      * exists new. rewrite Hbus, Hsame. split; [done|]. split; [done|].
        destruct (decide _) as [Hlt|_]; [lia|done].
      * exists (Bus.create_task_publish ev :: new).
        rewrite Hbus, Hgrow, <- app_assoc. split; [done|].
        split; [constructor; [by exists ev | done]|].
        destruct (decide _) as [_|Hn]; [simpl; by rewrite Hlen|].
        destruct Hn. rewrite ?Hgrow, length_app. simpl. lia.
    + exists []. rewrite Hs. by rewrite app_nil_r.
Qed.
End Ordering_facts.

(** ** The diff-stream builder *)

Section BinanceL2_facts.
Import BinanceL2 L2Spec.
Context `{Builtins}.

Lemma live_loop_app (pre post : list (Qc * depth_event)) s :
  live_loop (pre ++ post) s =
  match live_loop pre s with
  | Done _ s' => live_loop post s'
  | Raised e s' => Raised e s'
  end.
Proof.
  revert s. induction pre as [|ev pre IH]; intros s; simpl; [reflexivity|].
  unfold bind. destruct (live_one ev s); [apply IH | reflexivity].
Qed.

(** A diff entry of quantity zero deletes the level; any other quantity
    replaces what the level held. *)
Lemma put_level_lookup p q (m : gmap Qc Qc) :
  put_level p q m !! p = if decide (q = 0%Qc) then None else Some q.
Proof.
  unfold put_level. destruct (decide (q = 0%Qc)).
  - apply lookup_delete_eq.
  - apply lookup_insert_eq.
Qed.

Lemma put_level_other p p' q (m : gmap Qc Qc) :
  p <> p' -> put_level p q m !! p' = m !! p'.
Proof.
  intros Hne. unfold put_level. destruct (decide (q = 0%Qc)).
  - by apply lookup_delete_ne.
  - by apply lookup_insert_ne.
Qed.

(** C1.  Scenario A: loading the snapshot (cursor 100) and replaying the two
    buffered deltas skips the first, applies the second, and leaves no bid,
    the ask 10.5 -> 1 and the cursor at 101; a whole connection attempt
    given that snapshot and those buffered deltas ends in that book. *)
Theorem scenario_A_replay (s : BinanceL2BookBuilder) :
  (exists s',
      (exec _load_snapshot Scenario.snapshot_A;
       exec modify (set_book_update_id 100);
       replay Scenario.buffered_A false) s = Done true s'
      /\ bids s' = ∅
      /\ asks s' = {[ Scenario.price 105 10 := Scenario.price 1 1 ]}
      /\ book_update_id s' = 101)
  /\ (exists s',
      _run_once (Scenario.epoch_A []) s = Done Returned s'
      /\ bids s' = ∅
      /\ asks s' = {[ Scenario.price 105 10 := Scenario.price 1 1 ]}
      /\ book_update_id s' = 101).
Proof.
  split; eexists; (split; [vm_compute; reflexivity|]);
    repeat split; vm_compute; reflexivity.
Qed.

(** *** The resync counter is touched by [start] only *)

Lemma apply_bids_counter c l : preserves (counter_is c) (apply_bids l).
Proof. induction l as [|[p q] l IH]; simpl; repeat frame_step. Qed.

Lemma apply_asks_counter c l : preserves (counter_is c) (apply_asks l).
Proof. induction l as [|[p q] l IH]; simpl; repeat frame_step. Qed.
Hint Resolve apply_bids_counter apply_asks_counter : frame.

Lemma apply_event_counter c now ev :
  preserves (counter_is c) (_apply_event now ev).
Proof. unfold _apply_event. repeat frame_step. Qed.

Lemma emit_state_counter c now ts :
  preserves (counter_is c) (_emit_state now ts).
Proof. unfold _emit_state. repeat frame_step. Qed.
Hint Resolve apply_event_counter emit_state_counter : frame.

Lemma live_one_counter c ev : preserves (counter_is c) (live_one ev).
Proof. destruct ev as [now ev]. unfold live_one. repeat frame_step. Qed.
Hint Resolve live_one_counter : frame.

Lemma live_loop_counter c evs : preserves (counter_is c) (live_loop evs).
Proof. induction evs as [|ev evs IH]; simpl; repeat frame_step. Qed.

Lemma replay_one_counter c ev : preserves (counter_is c) (replay_one ev).
Proof. destruct ev as [now ev]. unfold replay_one. repeat frame_step. Qed.
Hint Resolve replay_one_counter : frame.

Lemma replay_counter c evs applied :
  preserves (counter_is c) (replay evs applied).
Proof.
  revert applied.
  induction evs as [|ev evs IH]; intros applied; simpl; repeat frame_step.
Qed.

Lemma await_first_counter c evs : preserves (counter_is c) (await_first evs).
Proof. induction evs as [|[now ev] evs IH]; simpl; repeat frame_step. Qed.

Lemma load_snapshot_counter c snap :
  preserves (counter_is c) (_load_snapshot snap).
Proof. unfold _load_snapshot. repeat frame_step. Qed.
Hint Resolve live_loop_counter replay_counter await_first_counter
  load_snapshot_counter : frame.

Lemma synchronise_counter c ep : preserves (counter_is c) (synchronise ep).
Proof. unfold synchronise. repeat frame_step. Qed.
Hint Resolve synchronise_counter : frame.

Lemma run_once_counter c ep : preserves (counter_is c) (_run_once ep).
Proof. unfold _run_once. repeat frame_step. Qed.

(** *** Sorted sides *)

#[local] Instance price_desc_total : Total price_desc.
Proof. intros x y. unfold price_desc. destruct (Qc_le_total y.1 x.1); auto. Qed.

#[local] Instance price_asc_total : Total price_asc.
Proof. intros x y. unfold price_asc. destruct (Qc_le_total x.1 y.1); auto. Qed.

#[local] Instance price_desc_trans : Transitive price_desc.
Proof. intros x y z Hxy Hyz. unfold price_desc in *. by etrans. Qed.

#[local] Instance price_asc_trans : Transitive price_asc.
Proof. intros x y z Hxy Hyz. unfold price_asc in *. by etrans. Qed.

(** A list sorted by a weak order on keys that are pairwise distinct is
    sorted by the strict order. *)
Lemma sorted_strict (R : relation Qc) (S : relation Qc) (l : list (Qc * Qc)) :
  (forall x y, R x y -> x <> y -> S x y) ->
  NoDup l.*1 ->
  StronglySorted (fun x y => R x.1 y.1) l ->
  StronglySorted (fun x y => S x.1 y.1) l.
Proof.
  intros HRS Hnd Hs. induction Hs as [|x l Hs IH Hall]; [constructor|].
  simpl in Hnd. apply NoDup_cons in Hnd as [Hx Hnd'].
  constructor; [by apply IH|].
  apply Forall_forall. intros y Hy.
  apply HRS; [by eapply Forall_forall in Hall|].
  intros Heq. apply Hx. rewrite Heq. apply list_elem_of_fmap.
  by exists y.
Qed.

Lemma sorted_nodup (R : relation (Qc * Qc)) `{!RelDecision R} (m : gmap Qc Qc) :
  NoDup (merge_sort R (map_to_list m)).*1.
Proof.
  rewrite (merge_sort_Permutation R). apply NoDup_fst_map_to_list.
Qed.

Lemma sorted_desc_strict (m : gmap Qc Qc) :
  StronglySorted (fun x y => (y.1 < x.1)%Qc) (sorted_desc m).
Proof.
  apply (sorted_strict (fun a b => (b <= a)%Qc) (fun a b => (b < a)%Qc)).
  - intros x y Hle Hne. apply Qcle_lt_or_eq in Hle as [Hlt|Heq]; [done|].
    by destruct Hne.
  - apply (sorted_nodup price_desc).
  - apply (StronglySorted_merge_sort price_desc).
Qed.

Lemma sorted_asc_strict (m : gmap Qc Qc) :
  StronglySorted (fun x y => (x.1 < y.1)%Qc) (sorted_asc m).
Proof.
  apply (sorted_strict (fun a b => (a <= b)%Qc) (fun a b => (a < b)%Qc)).
  - intros x y Hle Hne. apply Qcle_lt_or_eq in Hle as [Hlt|Heq]; done.
  - apply (sorted_nodup price_asc).
  - apply (StronglySorted_merge_sort price_asc).
Qed.

Lemma sorted_positive (R : relation (Qc * Qc)) `{!RelDecision R} (m : gmap Qc Qc) :
  positive_levels m ->
  Forall (fun l => (0 < l.2)%Qc) (merge_sort R (map_to_list m)).
Proof.
  intros Hpos. apply Forall_forall. intros [p q] Hin.
  rewrite merge_sort_Permutation in Hin.
  apply elem_of_map_to_list in Hin. exact (Hpos p q Hin).
Qed.

(** The sorted view of a dict does not depend on the order in which its
    items are enumerated. *)
Lemma sorted_desc_unique (m : gmap Qc Qc) (l : list (Qc * Qc)) :
  l ≡ₚ map_to_list m -> merge_sort price_desc l = sorted_desc m.
Proof.
  intros Hperm.
  assert (Hnd : NoDup l.*1).
  { rewrite Hperm. apply NoDup_fst_map_to_list. }
  assert (Hl : StronglySorted (fun x y => (y.1 < x.1)%Qc) (merge_sort price_desc l)).
  { apply (sorted_strict (fun a b => (b <= a)%Qc) (fun a b => (b < a)%Qc)).
    - intros x y Hle Hne. apply Qcle_lt_or_eq in Hle as [Hlt|Heq]; [done|].
      by destruct Hne.
    - by rewrite (merge_sort_Permutation price_desc).
    - apply (StronglySorted_merge_sort price_desc). }
  apply (StronglySorted_unique_strong (fun x y => (y.1 < x.1)%Qc)).
  - intros x y _ _ Hxy Hyx. exfalso.
    apply (Qclt_not_eq x.1 x.1); [by eapply Qclt_trans | done].
  - exact Hl.
  - apply sorted_desc_strict.
  - unfold sorted_desc. by rewrite !merge_sort_Permutation.
Qed.

Lemma slice_to_take {A} (n : Z) (l : list A) : exists k, slice_to n l = take k l.
Proof. unfold slice_to. destruct (n <? 0); eauto. Qed.

Lemma take_strongly_sorted {A} (R : relation A) k (l : list A) :
  StronglySorted R l -> StronglySorted R (take k l).
Proof.
  intros Hs. rewrite <- (take_drop k l) in Hs.
  by apply StronglySorted_app_1_l in Hs.
Qed.

Lemma take_head {A} k (l : list A) x rest :
  take k l = x :: rest -> exists rest', l = x :: rest'.
Proof. destruct k, l; simpl; intros Heq; inversion Heq; eauto. Qed.

(** *** The book invariant *)

Lemma put_level_positive p q (m : gmap Qc Qc) :
  positive_levels m -> (0 <= q)%Qc -> positive_levels (put_level p q m).
Proof.
  intros Hm Hq. unfold put_level, positive_levels.
  destruct (decide (q = 0%Qc)) as [->|Hne].
  - by apply map_Forall_delete.
  - apply map_Forall_insert_2; [|done].
    apply Qcle_lt_or_eq in Hq as [Hlt|Heq]; [done | by destruct Hne].
Qed.

Lemma snapshot_side_positive l (acc m : gmap Qc Qc) :
  positive_levels acc -> snapshot_side l acc = inr m -> positive_levels m.
Proof.
  revert acc. induction l as [|[p q] l IH]; intros acc Hacc; simpl.
  - by intros [= <-].
  - destruct (float q) as [e|qty] eqn:Hq; [done|].
    destruct (decide (0 < qty)%Qc) as [Hpos|Hnpos]; [|by apply IH].
    destruct (float p) as [e|pr]; [done|].
    apply IH. by apply map_Forall_insert_2.
Qed.

Lemma book_state_well_formed now ts s b :
  positive_levels (bids s) -> positive_levels (asks s) ->
  book_state now ts s = Some b -> well_formed b.
Proof.
  intros Hb Ha. unfold book_state.
  assert (Hshape : exists kb ka bs as_,
    (if emit_full s then (sorted_desc (bids s), sorted_asc (asks s))
     else _top_levels s) = (bs, as_)
    /\ bs = take kb (sorted_desc (bids s))
    /\ as_ = take ka (sorted_asc (asks s))).
  { destruct (emit_full s).
    - exists (length (sorted_desc (bids s))), (length (sorted_asc (asks s))).
      eexists _, _. by rewrite !firstn_all.
    - unfold _top_levels.
      destruct (slice_to_take (top_n s) (sorted_desc (bids s))) as [kb Hkb].
      destruct (slice_to_take (top_n s) (sorted_asc (asks s))) as [ka Hka].
      exists kb, ka. eexists _, _. by rewrite Hkb, Hka. }
  destruct Hshape as (kb & ka & bs & as_ & -> & Hbs & Has).
  destruct bs as [|[bb qb] bs']; [done|].
  destruct as_ as [|[ba qa] as']; [done|].
  intros [= <-]. unfold well_formed. simpl.
  repeat split; eauto.
  - rewrite Hbs. apply take_strongly_sorted, sorted_desc_strict.
  - rewrite Has. apply take_strongly_sorted, sorted_asc_strict.
  - rewrite Hbs. apply Forall_take. by apply (sorted_positive price_desc).
  - rewrite Has. apply Forall_take. by apply (sorted_positive price_asc).
Qed.

Lemma apply_bids_inv bus0 l :
  nonneg_entries l -> preserves (book_inv bus0) (apply_bids l).
Proof.
  induction l as [|[p q] l IH]; intros Hnn; simpl; [frame_step|].
  apply Forall_cons in Hnn as [Hq Hnn].
  apply preserves_bind_lift; intros price _.
  apply preserves_bind_lift; intros qty Hqty.
  apply preserves_bind; [|intros _; by apply IH].
  apply preserves_modify. intros s (Hb & Ha & Hbus).
  split; [|done]. simpl. apply put_level_positive; [done | by apply Hq].
Qed.

Lemma apply_asks_inv bus0 l :
  nonneg_entries l -> preserves (book_inv bus0) (apply_asks l).
Proof.
  induction l as [|[p q] l IH]; intros Hnn; simpl; [frame_step|].
  apply Forall_cons in Hnn as [Hq Hnn].
  apply preserves_bind_lift; intros price _.
  apply preserves_bind_lift; intros qty Hqty.
  apply preserves_bind; [|intros _; by apply IH].
  apply preserves_modify. intros s (Hb & Ha & Hbus).
  split; [done|]. split; [|done]. simpl.
  apply put_level_positive; [done | by apply Hq].
Qed.

Lemma apply_event_inv bus0 now ev :
  nonneg_event ev -> preserves (book_inv bus0) (_apply_event now ev).
Proof.
  intros [Hb Ha]. unfold _apply_event.
  repeat frame_step; auto using apply_bids_inv, apply_asks_inv.
Qed.

Lemma emit_state_inv bus0 now ts : preserves (book_inv bus0) (_emit_state now ts).
Proof.
  intros s (Hb & Ha & new & Hbus & Hnew). unfold _emit_state, bind, get.
  destruct (book_state now ts s) as [b|] eqn:Hstate; simpl;
    [|exact (conj Hb (conj Ha (ex_intro _ new (conj Hbus Hnew))))].
  repeat split; try done.
  exists (new ++ [Bus.create_task_publish (book_event b)]). split.
  - rewrite Hbus. by rewrite <- app_assoc.
  - apply Forall_app. split; [done|]. constructor; [|constructor].
    exists b. split; [done|]. by eapply book_state_well_formed.
Qed.
Hint Resolve apply_event_inv emit_state_inv : frame.

Lemma live_one_inv bus0 ev :
  nonneg_event ev.2 -> preserves (book_inv bus0) (live_one ev).
Proof. destruct ev as [now ev]. intros Hnn. unfold live_one. repeat frame_step. Qed.

Lemma live_loop_inv bus0 evs :
  Forall (fun ev => nonneg_event ev.2) evs ->
  preserves (book_inv bus0) (live_loop evs).
Proof.
  induction evs as [|ev evs IH]; intros Hnn; simpl; [frame_step|].
  apply Forall_cons in Hnn as [Hev Hnn].
  apply preserves_bind; [by apply live_one_inv | intros _; by apply IH].
Qed.

Lemma replay_one_inv bus0 ev :
  nonneg_event ev.2 -> preserves (book_inv bus0) (replay_one ev).
Proof. destruct ev as [now ev]. intros Hnn. unfold replay_one. repeat frame_step. Qed.

Lemma replay_inv bus0 evs applied :
  Forall (fun ev => nonneg_event ev.2) evs ->
  preserves (book_inv bus0) (replay evs applied).
Proof.
  revert applied.
  induction evs as [|ev evs IH]; intros applied Hnn; simpl; [frame_step|].
  apply Forall_cons in Hnn as [Hev Hnn].
  apply preserves_bind; [by apply replay_one_inv | intros a; by apply IH].
Qed.

(** [await_first] hands back a suffix of its input. *)
Lemma await_first_suffix evs s rest s' :
  await_first evs s = Done (Some rest) s' -> exists pre, evs = pre ++ rest.
Proof.
  revert s. induction evs as [|[now ev] evs IH]; intros s; simpl; [done|].
  unfold bind, lift, get.
  destruct (int_or0 (ev_u ev)) as [e|u]; simpl; [done|].
  destruct (int_or0 (ev_U ev)) as [e|U]; simpl; [done|].
  assert (Hrec : await_first evs s = Done (Some rest) s' ->
                 exists pre, (now, ev) :: evs = pre ++ rest).
  { intros Hr. destruct (IH _ Hr) as [pre ->]. by exists ((now, ev) :: pre). }
  destruct (decide (u <= book_update_id s)); [done|].
  destruct (decide (U <= book_update_id s + 1 <= u)).
  - destruct (_apply_event now ev s); simpl; [|done].
    intros [= <- <-]. by exists [(now, ev)].
  - destruct (decide (U > book_update_id s + 1)); done.
Qed.

Lemma await_first_inv bus0 evs :
  Forall (fun ev => nonneg_event ev.2) evs ->
  preserves (book_inv bus0) (await_first evs).
Proof.
  induction evs as [|[now ev] evs IH]; intros Hnn; simpl; [frame_step|].
  apply Forall_cons in Hnn as [Hev Hnn]. simpl in Hev.
  repeat frame_step; auto.
Qed.

Lemma load_snapshot_inv bus0 snap :
  preserves (book_inv bus0) (_load_snapshot snap).
Proof.
  unfold _load_snapshot.
  apply preserves_bind_lift; intros bs Hbs.
  apply preserves_bind.
  { apply preserves_modify. intros s (Hb & Ha & Hbus). split; [|done].
    simpl. eapply snapshot_side_positive; [|exact Hbs]. apply map_Forall_empty. }
  intros _. apply preserves_bind_lift; intros as_ Has.
  apply preserves_modify. intros s (Hb & Ha & Hbus). split; [done|].
  split; [|done].
  simpl. eapply snapshot_side_positive; [|exact Has]. apply map_Forall_empty.
Qed.

Hint Resolve load_snapshot_inv : frame.

Lemma synchronise_inv bus0 ep s :
  Forall (fun ev => nonneg_event ev.2) (buffered ep) ->
  Forall (fun ev => nonneg_event ev.2) (live ep) ->
  good_bus bus0 s ->
  book_inv bus0 (final (synchronise ep s)).
Proof.
  intros Hbuf Hlive Hbus. unfold synchronise. rewrite !bind_modify.
  match goal with
  | |- book_inv _ (final (?m ?s1)) =>
      assert (Hp : preserves (book_inv bus0) m); [|apply Hp]
  end.
  - repeat frame_step; auto using replay_inv, await_first_inv.
  - split; [apply map_Forall_empty|]. split; [apply map_Forall_empty|].
    exact Hbus.
Qed.

Lemma synchronise_rest ep s rest s' :
  synchronise ep s = Done (Synced rest) s' -> exists pre, live ep = pre ++ rest.
Proof.
  unfold synchronise. rewrite !bind_modify. unfold bind, lift.
  destruct (fetch_until _ _) as [e|[snap last_id| |]]; simpl; try done.
  destruct (_load_snapshot snap _) as [[] s1|]; simpl; [|done].
  destruct (replay _ _ _) as [[|] s2|]; simpl; try done.
  - intros [= <- <-]. by exists [].
  - destruct (await_first _ _) as [[evs|] s3|] eqn:Haw; simpl; try done.
    intros [= <- <-]. by eapply await_first_suffix.
Qed.


(** C6.  A delta whose end id is not above the cursor is skipped: in the
    live loop, in the replay of the buffer and in the wait for the first
    bridging delta the builder (both maps, the cursor, the bus) is left as
    it was, so what the loops do afterwards is what they do without it. *)
Theorem stale_delta_skipped (s : BinanceL2BookBuilder) now ev (u U : Z) :
  int_or0 (ev_u ev) = inr u ->
  int_or0 (ev_U ev) = inr U ->
  u <= book_update_id s ->
  live_one (now, ev) s = Done tt s
  /\ replay_one (now, ev) s = Done false s
  /\ (forall rest, live_loop ((now, ev) :: rest) s = live_loop rest s)
  /\ (forall rest applied,
        replay ((now, ev) :: rest) applied s = replay rest applied s)
  /\ (forall rest, await_first ((now, ev) :: rest) s = await_first rest s).
Proof.
  intros Hu HU Hle.
  assert (Hlive : live_one (now, ev) s = Done tt s).
  { unfold live_one, bind, lift, get. rewrite Hu, HU. simpl.
    destruct (decide (u <= book_update_id s)); [reflexivity | contradiction]. }
  assert (Hrep : replay_one (now, ev) s = Done false s).
  { unfold replay_one, bind, lift, get. rewrite Hu, HU. simpl.
    destruct (decide (u <= book_update_id s)); [reflexivity | contradiction]. }
  repeat split; trivial.
  - intros rest. cbn [live_loop]. unfold bind at 1. rewrite Hlive. reflexivity.
  - intros rest applied. cbn [replay]. unfold bind at 1. rewrite Hrep.
    rewrite orb_false_r. reflexivity.
  - intros rest. cbn [await_first]. unfold bind, lift, get. rewrite Hu, HU.
    simpl.
    destruct (decide (u <= book_update_id s)); [reflexivity | contradiction].
Qed.

(** C2.  In the live loop a delta with end id above the cursor and start id
    above cursor + 1 raises the gap error with the builder untouched (the
    delta is not applied to either map).  When the attempt had reached the
    live loop and consumed [pre] before it, [_run_once] ends with that
    error, and [start] counts one more resync (the counter is touched
    nowhere else) before it goes on with the next attempt. *)
Theorem gap_raises_and_resyncs
    (ep : epoch) (epochs : list epoch) (s0 sa s : BinanceL2BookBuilder)
    pre now ev post (u U : Z) :
  synchronise ep s0 = Done (Synced (pre ++ (now, ev) :: post)) sa ->
  live_loop pre sa = Done tt s ->
  int_or0 (ev_u ev) = inr u ->
  int_or0 (ev_U ev) = inr U ->
  u > book_update_id s ->
  U > book_update_id s + 1 ->
  live_one (now, ev) s = Raised gap s
  /\ _run_once ep s0 = Raised gap s
  /\ _resync_count s = _resync_count s0
  /\ start (ep :: epochs) s0
     = start epochs (set_resync_count (_resync_count s0 + 1) s).
Proof.
  intros Hsync Hpre Hu HU Hgt Hgap.
  assert (Hone : live_one (now, ev) s = Raised gap s).
  { unfold live_one, bind, lift, get. rewrite Hu, HU. simpl.
    destruct (decide (u <= book_update_id s)); [lia|].
    destruct (decide (U > book_update_id s + 1)); [reflexivity | lia]. }
  assert (Hrun : _run_once ep s0 = Raised gap s).
  { unfold _run_once, bind. rewrite Hsync. fold (@bind BinanceL2BookBuilder).
    rewrite live_loop_app, Hpre. cbn [live_loop]. unfold bind at 1.
    rewrite Hone. reflexivity. }
  assert (Hc : _resync_count s = _resync_count s0).
  { pose proof (run_once_counter (_resync_count s0) ep s0 eq_refl) as Hk.
    rewrite Hrun in Hk. exact Hk. }
  repeat split; trivial.
  simpl. rewrite Hrun, Hc. reflexivity.
Qed.

(** *** The order of the published states *)

Lemma apply_bids_cursor i b l : preserves (cursor_bus_is i b) (apply_bids l).
Proof. induction l as [|[p q] l IH]; simpl; repeat frame_step. Qed.

Lemma apply_asks_cursor i b l : preserves (cursor_bus_is i b) (apply_asks l).
Proof. induction l as [|[p q] l IH]; simpl; repeat frame_step. Qed.
Hint Resolve apply_bids_cursor apply_asks_cursor : frame.

Lemma apply_event_cursor i b now ev :
  preserves (cursor_bus_is i b) (_apply_event now ev).
Proof. unfold _apply_event. repeat frame_step. Qed.

Lemma live_one_outcome now ev s :
  match live_one (now, ev) s with
  | Done _ s' =>
      (book_update_id s' = book_update_id s /\ bus s' = bus s)
      \/ (book_update_id s < book_update_id s'
          /\ (bus s' = bus s
              \/ exists e, bus s' = bus s ++ [Bus.create_task_publish e]))
  | Raised _ s' => bus s' = bus s
  end.
Proof.
  unfold live_one, bind, lift, get.
  destruct (int_or0 (ev_u ev)) as [e|u]; simpl; [done|].
  destruct (int_or0 (ev_U ev)) as [e|U]; simpl; [done|].
  destruct (decide (u <= book_update_id s)); [by left|].
  destruct (decide (U > book_update_id s + 1)); [done|].
  pose proof (apply_event_cursor _ _ now ev s (conj eq_refl eq_refl)) as [Hid Hbus].
  destruct (_apply_event now ev s) as [[] s1|e s1]; simpl in *; [|done].
  unfold _emit_state, bind, get, modify. simpl.
  destruct (book_state now (ev_E ev) _) as [b|]; simpl; right;
    (split; [lia|]); rewrite Hbus; eauto.
Qed.

Lemma live_one_advancing : Ordering.advancing book_update_id bus live_one.
Proof.
  intros [now ev] s s' Hstep. pose proof (live_one_outcome now ev s) as Ho.
  rewrite Hstep in Ho. destruct Ho as [[Hid Hbus]|[Hlt _]].
  - rewrite Hid, Hbus. split; lia.
  - split; lia.
Qed.

Lemma live_one_spawning : Ordering.spawning bus live_one.
Proof.
  intros [now ev] s. pose proof (live_one_outcome now ev s) as Ho.
  destruct (live_one (now, ev) s); [|done].
  destruct Ho as [[_ Hbus]|[_ Hbus]]; auto.
Qed.

Lemma live_loop_for_each evs s :
  live_loop evs s = Ordering.for_each live_one evs s.
Proof.
  revert s. induction evs as [|ev evs IH]; intros s; simpl; [done|].
  unfold bind. destruct (live_one ev s); [apply IH | done].
Qed.

End BinanceL2_facts.

(** ** The order-stream builder *)

(** Turns a goal on [Qc] into one on [Q] for [lra]. *)
Lemma Qc_this_plus (x y : Qc) : (this (x + y)%Qc == this x + this y)%Q.
Proof. apply Qred_correct. Qed.

Lemma Qc_this_opp (x : Qc) : (this (- x)%Qc == - this x)%Q.
Proof. apply Qred_correct. Qed.

Lemma Qc_this_minus (x y : Qc) : (this (x - y)%Qc == this x - this y)%Q.
Proof. unfold Qcminus. rewrite Qc_this_plus, Qc_this_opp. reflexivity. Qed.

Lemma Qc_this_eq (a b : Qc) : a = b -> (this a == this b)%Q.
Proof. intros ->. reflexivity. Qed.

Ltac qc_arith :=
  intros;
  repeat match goal with
  | H : @eq Qc _ _ |- _ => apply Qc_this_eq in H
  | H : ~ (@eq Qc ?x ?y) |- _ =>
      let H' := fresh in
      assert (H' : ~ (this x == this y)%Q)
        by (let E := fresh in intros E; apply H; apply Qc_is_canon; exact E);
      clear H
  | |- @eq Qc _ _ => apply Qc_is_canon
  | |- ~ (@eq Qc _ _) => let E := fresh in intros E; apply Qc_this_eq in E
  end;
  unfold Qcle, Qclt in *;
  rewrite ?Qc_this_plus, ?Qc_this_minus, ?Qc_this_opp in *;
  change (this 0%Qc) with 0%Q in *;
  lra.

Section CoinbaseL3_facts.
Import CoinbaseL3 L3Spec.
Context `{Builtins}.

(** *** Sums of live orders *)

Lemma contributes_comm sd p (o1 o2 : order) (y : Qc) :
  (contributes sd p o1 + (contributes sd p o2 + y)
   = contributes sd p o2 + (contributes sd p o1 + y))%Qc.
Proof. ring. Qed.

Lemma live_quantity_empty sd p : live_quantity sd p ∅ = 0%Qc.
Proof. unfold live_quantity. apply map_fold_empty. Qed.

Lemma live_quantity_insert sd p oid o (m : gmap jval order) :
  m !! oid = None ->
  live_quantity sd p (<[oid := o]> m)
  = (contributes sd p o + live_quantity sd p m)%Qc.
Proof.
  intros Hfresh. unfold live_quantity.
  apply (map_fold_insert_L (fun _ o acc => (contributes sd p o + acc)%Qc));
    [|done].
  intros. apply contributes_comm.
Qed.

Lemma live_quantity_delete sd p oid o (m : gmap jval order) :
  m !! oid = Some o ->
  live_quantity sd p (delete oid m)
  = (live_quantity sd p m - contributes sd p o)%Qc.
Proof.
  intros Hin. unfold live_quantity.
  rewrite (map_fold_delete_L (fun _ o acc => (contributes sd p o + acc)%Qc)
             _ oid o m); [ring | | done].
  intros. apply contributes_comm.
Qed.

Lemma live_quantity_replace sd p oid o o' (m : gmap jval order) :
  m !! oid = Some o ->
  live_quantity sd p (<[oid := o']> m)
  = (live_quantity sd p m - contributes sd p o + contributes sd p o')%Qc.
Proof.
  intros Hin. rewrite <- insert_delete_eq.
  rewrite live_quantity_insert by apply lookup_delete_eq.
  rewrite (live_quantity_delete _ _ _ o) by done. ring.
Qed.

Lemma contributes_nonneg sd p o : valid_order o -> (0 <= contributes sd p o)%Qc.
Proof.
  intros [Hpos _]. unfold contributes.
  destruct (decide _); [by apply Qclt_le_weak | done].
Qed.

Lemma live_quantity_nonneg sd p (m : gmap jval order) :
  map_Forall (fun _ o => valid_order o) m -> (0 <= live_quantity sd p m)%Qc.
Proof.
  induction m as [|oid o m Hfresh IH] using map_ind; intros Hall.
  - by rewrite live_quantity_empty.
  - rewrite live_quantity_insert by done.
    apply map_Forall_insert in Hall as [Ho Hm]; [|done].
    apply Qcplus_nonneg_nonneg; [by apply contributes_nonneg | by apply IH].
Qed.

(** A live order is counted in the sum of its own level. *)
Lemma live_quantity_ge oid o (m : gmap jval order) :
  map_Forall (fun _ o => valid_order o) m ->
  m !! oid = Some o ->
  (o_size o <= live_quantity (o_side o) (o_price o) m)%Qc.
Proof.
  intros Hall Hin.
  assert (Hrest : (0 <= live_quantity (o_side o) (o_price o) (delete oid m))%Qc).
  { apply live_quantity_nonneg. by apply map_Forall_delete. }
  rewrite (live_quantity_delete _ _ _ o) in Hrest by done.
  assert (Hc : contributes (o_side o) (o_price o) o = o_size o).
  { unfold contributes. destruct (decide _) as [|Hn]; [done|]. by destruct Hn. }
  rewrite Hc in Hrest. revert Hrest. qc_arith.
Qed.

(** *** One side of the aggregated book under an update of the orders *)

Lemma side_same sd lv (m m' : gmap jval order) :
  level_matches sd lv m ->
  (forall p, live_quantity sd p m' = live_quantity sd p m) ->
  level_matches sd lv m'.
Proof. intros Hm Heq p. rewrite Heq. apply Hm. Qed.

Lemma side_update sd lv (m m' : gmap jval order) p0 q0 :
  level_matches sd lv m ->
  (forall p, p <> p0 -> live_quantity sd p m' = live_quantity sd p m) ->
  live_quantity sd p0 m' = q0 ->
  q0 <> 0%Qc ->
  level_matches sd (<[p0 := q0]> lv) m'.
Proof.
  intros Hm Hother Hq Hnz p. destruct (decide (p = p0)) as [->|Hne].
  - rewrite lookup_insert_eq, Hq. by destruct (decide (q0 = 0%Qc)).
  - rewrite lookup_insert_ne by done. rewrite Hother by done. apply Hm.
Qed.

Lemma side_delete sd lv (m m' : gmap jval order) p0 :
  level_matches sd lv m ->
  (forall p, p <> p0 -> live_quantity sd p m' = live_quantity sd p m) ->
  live_quantity sd p0 m' = 0%Qc ->
  level_matches sd (delete p0 lv) m'.
Proof.
  intros Hm Hother Hq p. destruct (decide (p = p0)) as [->|Hne].
  - rewrite lookup_delete_eq, Hq. by destruct (decide (0%Qc = 0%Qc)).
  - rewrite lookup_delete_ne by done. rewrite Hother by done. apply Hm.
Qed.

Lemma contributes_own o : contributes (o_side o) (o_price o) o = o_size o.
Proof.
  unfold contributes. destruct (decide _) as [|Hn]; [done|]. by destruct Hn.
Qed.

Lemma contributes_other_price sd p o : p <> o_price o -> contributes sd p o = 0%Qc.
Proof.
  intros Hne. unfold contributes.
  destruct (decide _) as [[_ Heq]|]; [by destruct Hne|done].
Qed.

Lemma contributes_other_side sd p o : sd <> o_side o -> contributes sd p o = 0%Qc.
Proof.
  intros Hne. unfold contributes.
  destruct (decide _) as [[Heq _]|]; [by destruct Hne|done].
Qed.

(** The level of a live order holds the sum at its price. *)
Lemma qty_at_level sd lv (m : gmap jval order) oid o :
  map_Forall (fun _ o => valid_order o) m ->
  level_matches sd lv m ->
  m !! oid = Some o -> o_side o = sd ->
  qty_at (o_price o) lv = live_quantity sd (o_price o) m
  /\ (o_size o <= live_quantity sd (o_price o) m)%Qc.
Proof.
  intros Hall Hlv Hin <-.
  pose proof (live_quantity_ge oid o m Hall Hin) as Hge.
  destruct (Hall oid o Hin) as [Hpos _].
  split; [|done]. unfold qty_at. rewrite (Hlv (o_price o)).
  destruct (decide _) as [Hz|]; [|done]. simpl. by rewrite Hz.
Qed.

Lemma is_type_true name msg : is_type name msg = true -> type msg = JStr name.
Proof. unfold is_type. apply bool_decide_eq_true. Qed.

Lemma is_type_other a b msg : type msg = JStr a -> a <> b -> is_type b msg = false.
Proof.
  intros Hty Hne. unfold is_type. apply bool_decide_eq_false. rewrite Hty.
  intros [= Heq]. by destruct Hne.
Qed.

Lemma is_type_same a msg : type msg = JStr a -> is_type a msg = true.
Proof. intros Hty. unfold is_type. by apply bool_decide_eq_true. Qed.

Lemma float_not_null v x : float v = inr x -> bool_decide (v = JNull) = false.
Proof. intros Hf. apply bool_decide_eq_false. by intros ->. Qed.

(** [_remove_order] on a live order of a consistent book. *)
Lemma remove_order_consistent s oid o :
  consistent s -> orders s !! oid = Some o ->
  exists s',
    _remove_order oid s = Done tt s'
    /\ orders s' = delete oid (orders s)
    /\ consistent s'.
Proof.
  intros (Hall & Hbuy & Hsell) Hin.
  destruct (Hall oid o Hin) as [Hpos Hside].
  assert (Hall' : map_Forall (fun _ o => valid_order o) (delete oid (orders s)))
    by (by apply map_Forall_delete).
  assert (Hother : forall sd p, (sd <> o_side o \/ p <> o_price o) ->
            live_quantity sd p (delete oid (orders s))
            = live_quantity sd p (orders s)).
  { intros sd p Hne. rewrite (live_quantity_delete _ _ _ o) by done.
    destruct Hne as [Hne|Hne];
      [rewrite contributes_other_side by done
      |rewrite contributes_other_price by done]; ring. }
  assert (Hown : live_quantity (o_side o) (o_price o) (delete oid (orders s))
                 = (live_quantity (o_side o) (o_price o) (orders s) - o_size o)%Qc).
  { rewrite (live_quantity_delete _ _ _ o) by done. by rewrite contributes_own. }
  unfold _remove_order, bind, get. rewrite Hin. simpl.
  unfold level_of, bind, get, store_level, modify. simpl.
  destruct Hside as [Hsd|Hsd]; rewrite Hsd in *; simpl.
  - destruct (qty_at_level _ _ _ oid o Hall Hbuy Hin Hsd) as [Hq Hge].
    rewrite Hq.
    destruct (decide (live_quantity (JStr "buy") (o_price o) (orders s)
                      - o_size o <= 0)%Qc) as [Hle|Hgt]; simpl;
      eexists; (split; [reflexivity|]); (split; [reflexivity|]);
      (split; [exact Hall'|]); simpl; split.
    + eapply side_delete; [exact Hbuy | intros; apply Hother; by right |].
      rewrite Hown. revert Hle Hge. qc_arith.
    + eapply side_same; [exact Hsell | intros; apply Hother; by left].
    + eapply side_update; [exact Hbuy | intros; apply Hother; by right | exact Hown |].
      revert Hgt. qc_arith.
    + eapply side_same; [exact Hsell | intros; apply Hother; by left].
  - destruct (qty_at_level _ _ _ oid o Hall Hsell Hin Hsd) as [Hq Hge].
    rewrite Hq.
    destruct (decide (live_quantity (JStr "sell") (o_price o) (orders s)
                      - o_size o <= 0)%Qc) as [Hle|Hgt]; simpl;
      eexists; (split; [reflexivity|]); (split; [reflexivity|]);
      (split; [exact Hall'|]); simpl; split.
    + eapply side_same; [exact Hbuy | intros; apply Hother; by left].
    + eapply side_delete; [exact Hsell | intros; apply Hother; by right |].
      rewrite Hown. revert Hle Hge. qc_arith.
    + eapply side_same; [exact Hbuy | intros; apply Hother; by left].
    + eapply side_update; [exact Hsell | intros; apply Hother; by right | exact Hown |].
      revert Hgt. qc_arith.
Qed.

Lemma levels_get_buy sd l : sd = JStr "buy" -> levels_get sd l = Some (buy l).
Proof. by intros ->. Qed.

Lemma levels_get_sell sd l : sd = JStr "sell" -> levels_get sd l = Some (sell l).
Proof. by intros ->. Qed.

Lemma levels_set_buy sd m l :
  sd = JStr "buy" -> levels_set sd m l = {| buy := m; sell := sell l |}.
Proof. by intros ->. Qed.

Lemma levels_set_sell sd m l :
  sd = JStr "sell" -> levels_set sd m l = {| buy := buy l; sell := m |}.
Proof. by intros ->. Qed.

Lemma consistent_new product n fallback : consistent (new product n fallback).
Proof.
  split; [apply map_Forall_empty|].
  split; intros p; simpl; rewrite live_quantity_empty, lookup_empty;
    by destruct (decide _).
Qed.

Lemma qty_at_matches sd lv (m : gmap jval order) p :
  level_matches sd lv m -> qty_at p lv = live_quantity sd p m.
Proof.
  intros Hlv. unfold qty_at. rewrite (Hlv p).
  destruct (decide _) as [Hz|]; [by rewrite Hz | done].
Qed.

(** [_add_order] of a new order id, as [open] does. *)
Lemma add_order_consistent s oid sd p sz :
  consistent s -> orders s !! oid = None ->
  (sd = JStr "buy" \/ sd = JStr "sell") -> (0 < sz)%Qc ->
  exists s',
    _add_order oid sd p sz s = Done tt s'
    /\ orders s' = <[oid := {| o_side := sd; o_price := p; o_size := sz |}]> (orders s)
    /\ consistent s'.
Proof.
  intros (Hall & Hbuy & Hsell) Hfresh Hside Hpos.
  set (o := {| o_side := sd; o_price := p; o_size := sz |}).
  assert (Hall' : map_Forall (fun _ o => valid_order o) (<[oid := o]> (orders s)))
    by (apply map_Forall_insert_2; [by split | done]).
  assert (Hother : forall sd' p', (sd' <> sd \/ p' <> p) ->
            live_quantity sd' p' (<[oid := o]> (orders s))
            = live_quantity sd' p' (orders s)).
  { intros sd' p' Hne. rewrite live_quantity_insert by done.
    destruct Hne as [Hne|Hne];
      [rewrite contributes_other_side by done
      |rewrite contributes_other_price by done]; ring. }
  assert (Hown : live_quantity sd p (<[oid := o]> (orders s))
                 = (live_quantity sd p (orders s) + sz)%Qc).
  { rewrite live_quantity_insert by done.
    change sd with (o_side o) at 1. change p with (o_price o) at 1.
    rewrite contributes_own. simpl. ring. }
  pose proof (live_quantity_nonneg sd p (orders s) Hall) as Hnn.
  unfold _add_order, level_of, store_level. unfold bind, modify, get. cbv beta.
  destruct Hside as [Hsd|Hsd].
  - rewrite (levels_get_buy _ _ Hsd). simpl.
    rewrite (levels_set_buy _ _ _ Hsd).
    rewrite (qty_at_matches (JStr "buy") _ (orders s)) by done.
    rewrite Hsd in Hown, Hnn.
    eexists. split; [reflexivity|]. split; [reflexivity|].
    split; [exact Hall'|]. simpl. split.
    + eapply side_update; [exact Hbuy | | exact Hown |].
      * intros. apply Hother. by right.
      * revert Hnn Hpos. qc_arith.
    + eapply side_same; [exact Hsell|]. intros. apply Hother. left.
      by rewrite Hsd.
  - rewrite (levels_get_sell _ _ Hsd). simpl.
    rewrite (levels_set_sell _ _ _ Hsd).
    rewrite (qty_at_matches (JStr "sell") _ (orders s)) by done.
    rewrite Hsd in Hown, Hnn.
    eexists. split; [reflexivity|]. split; [reflexivity|].
    split; [exact Hall'|]. simpl. split.
    + eapply side_same; [exact Hbuy|]. intros. apply Hother. left.
      by rewrite Hsd.
    + eapply side_update; [exact Hsell | | exact Hown |].
      * intros. apply Hother. by right.
      * revert Hnn Hpos. qc_arith.
Qed.

(** An [open] of a new order id with a positive size. *)
Lemma open_consistent s msg p sz :
  consistent s -> orders s !! order_id msg = None ->
  is_type "open" msg = true ->
  truthy (order_id msg) = true -> truthy (msg_price msg) = true ->
  truthy (por (remaining_size msg) (msg_size msg)) = true ->
  (msg_side msg = JStr "buy" \/ msg_side msg = JStr "sell") ->
  float (msg_price msg) = inr p ->
  float (por (remaining_size msg) (msg_size msg)) = inr sz ->
  (0 < sz)%Qc ->
  exists s',
    _apply_message msg s = Done tt s'
    /\ orders s'
       = <[order_id msg := {| o_side := msg_side msg; o_price := p; o_size := sz |}]>
           (orders s)
    /\ consistent s'.
Proof.
  intros Hcons Hfresh Hty Hoid Hprice Hsz Hside Hp Hz Hpos.
  apply is_type_true in Hty.
  unfold _apply_message.
  rewrite (is_type_other "open" "received"), (is_type_same "open") by done.
  rewrite Hoid, Hprice, Hsz.
  assert (Hts : truthy (msg_side msg) = true) by (by destruct Hside as [->| ->]).
  rewrite Hts. simpl. unfold bind at 1. rewrite Hp. simpl.
  unfold bind at 1. rewrite Hz. simpl.
  by apply add_order_consistent.
Qed.

(** A [match] for less than the remaining size of a live order. *)
Lemma partial_match_consistent s msg oid o t :
  consistent s -> orders s !! oid = Some o -> truthy oid = true ->
  is_type "match" msg = true -> maker_order_id msg = oid ->
  float (msg_size msg) = inr t -> (t < o_size o)%Qc ->
  exists s',
    _apply_message msg s = Done tt s'
    /\ orders s' = <[oid := with_size (o_size o - t)%Qc o]> (orders s)
    /\ consistent s'.
Proof.
  intros (Hall & Hbuy & Hsell) Hin Hoid Hty <- Hsize Hlt.
  destruct (Hall _ o Hin) as [Hpos Hside].
  apply is_type_true in Hty.
  set (o' := with_size (o_size o - t)%Qc o).
  assert (Hall' : map_Forall (fun _ o => valid_order o)
                    (<[maker_order_id msg := o']> (orders s))).
  { apply map_Forall_insert_2; [|done]. split; [|done]. simpl.
    revert Hlt. qc_arith. }
  assert (Hother : forall sd p, (sd <> o_side o \/ p <> o_price o) ->
            live_quantity sd p (<[maker_order_id msg := o']> (orders s))
            = live_quantity sd p (orders s)).
  { intros sd p Hne. rewrite (live_quantity_replace _ _ _ o) by done.
    destruct Hne as [Hne|Hne];
      [rewrite !contributes_other_side by done
      |rewrite !contributes_other_price by done]; ring. }
  assert (Hown : live_quantity (o_side o) (o_price o)
                   (<[maker_order_id msg := o']> (orders s))
                 = (live_quantity (o_side o) (o_price o) (orders s) - t)%Qc).
  { rewrite (live_quantity_replace _ _ _ o) by done.
    rewrite contributes_own. change (o_side o) with (o_side o').
    change (o_price o) with (o_price o') at 2. rewrite contributes_own.
    simpl. ring. }
  unfold _apply_message.
  rewrite (is_type_other "match" "received"), (is_type_other "match" "open"),
    (is_type_same "match") by done.
  rewrite Hoid, (float_not_null _ _ Hsize). simpl.
  unfold bind at 1. unfold get at 1. rewrite Hin.
  unfold bind at 1. rewrite Hsize. simpl.
  destruct (decide (o_size o <= t)%Qc) as [Hle|_];
    [exfalso; revert Hle Hlt; qc_arith|].
  unfold level_of, store_level. unfold bind, modify, get. cbv beta.
  destruct Hside as [Hsd|Hsd].
  - rewrite (levels_get_buy _ _ Hsd). simpl.
    rewrite (levels_set_buy _ _ _ Hsd).
    destruct (qty_at_level _ _ _ _ o Hall Hbuy Hin Hsd) as [Hq Hge].
    rewrite Hsd in Hown.
    assert (Hmax : max0 (qty_at (o_price o) (buy (levels s)) - t)%Qc
                   = (live_quantity (JStr "buy") (o_price o) (orders s) - t)%Qc).
    { rewrite Hq. unfold max0. destruct (decide _) as [|Hn]; [done|].
      exfalso. revert Hn Hge Hlt. qc_arith. }
    simpl. rewrite Hmax.
    eexists. split; [reflexivity|]. split; [reflexivity|].
    split; [exact Hall'|]. simpl. split.
    + eapply side_update; [exact Hbuy | | exact Hown |].
      * intros. apply Hother. by right.
      * revert Hge Hlt. qc_arith.
    + eapply side_same; [exact Hsell|]. intros. apply Hother. left.
      by rewrite Hsd.
  - rewrite (levels_get_sell _ _ Hsd). simpl.
    rewrite (levels_set_sell _ _ _ Hsd).
    destruct (qty_at_level _ _ _ _ o Hall Hsell Hin Hsd) as [Hq Hge].
    rewrite Hsd in Hown.
    assert (Hmax : max0 (qty_at (o_price o) (sell (levels s)) - t)%Qc
                   = (live_quantity (JStr "sell") (o_price o) (orders s) - t)%Qc).
    { rewrite Hq. unfold max0. destruct (decide _) as [|Hn]; [done|].
      exfalso. revert Hn Hge Hlt. qc_arith. }
    simpl. rewrite Hmax.
    eexists. split; [reflexivity|]. split; [reflexivity|].
    split; [exact Hall'|]. simpl. split.
    + eapply side_same; [exact Hbuy|]. intros. apply Hother. left.
      by rewrite Hsd.
    + eapply side_update; [exact Hsell | | exact Hown |].
      * intros. apply Hother. by right.
      * revert Hge Hlt. qc_arith.
Qed.

(** A [match] for at least the remaining size of a live order. *)
Lemma full_match_consistent s msg oid o t :
  consistent s -> orders s !! oid = Some o -> truthy oid = true ->
  is_type "match" msg = true -> maker_order_id msg = oid ->
  float (msg_size msg) = inr t -> (o_size o <= t)%Qc ->
  exists s',
    _apply_message msg s = Done tt s'
    /\ orders s' = delete oid (orders s)
    /\ consistent s'.
Proof.
  intros Hcons Hin Hoid Hty <- Hsize Hle.
  apply is_type_true in Hty.
  unfold _apply_message.
  rewrite (is_type_other "match" "received"), (is_type_other "match" "open"),
    (is_type_same "match") by done.
  rewrite Hoid, (float_not_null _ _ Hsize). simpl.
  unfold bind at 1. unfold get at 1. rewrite Hin.
  unfold bind at 1. rewrite Hsize. simpl.
  destruct (decide (o_size o <= t)%Qc) as [_|Hn]; [|contradiction].
  by apply (remove_order_consistent _ _ o).
Qed.


(** C10.  A [match] whose [maker_order_id], or a [done] or [change] whose
    [order_id], is not a key of the order map leaves the builder as it was
    (the order map and both sides of the aggregated book) and raises
    nothing, whatever the other fields of the message hold. *)
Theorem absent_order_is_noop (s : CoinbaseL3BookBuilder) (msg : message) :
  (is_type "match" msg = true /\ orders s !! maker_order_id msg = None)
  \/ (is_type "done" msg = true /\ orders s !! order_id msg = None)
  \/ (is_type "change" msg = true /\ orders s !! order_id msg = None) ->
  _apply_message msg s = Done tt s.
Proof.
  intros [[Hty Hno]|[[Hty Hno]|[Hty Hno]]]; apply is_type_true in Hty;
    unfold _apply_message.
  - rewrite (is_type_other "match" "received"), (is_type_other "match" "open"),
      (is_type_same "match") by done.
    destruct (negb _ || _); [reflexivity|].
    unfold bind, get. by rewrite Hno.
  - rewrite (is_type_other "done" "received"), (is_type_other "done" "open"),
      (is_type_other "done" "match"), (is_type_same "done") by done.
    destruct (truthy (order_id msg)); [|reflexivity].
    unfold _remove_order, bind, get. by rewrite Hno.
  - rewrite (is_type_other "change" "received"), (is_type_other "change" "open"),
      (is_type_other "change" "match"), (is_type_other "change" "done"),
      (is_type_same "change") by done.
    destruct (negb _ || _); [reflexivity|].
    unfold bind, get. by rewrite Hno.
Qed.

(** *** The fallback *)

Lemma emit_state_l2_fallback bus0 c now bs as_ :
  preserves (fallback_inv bus0 c) (_emit_state_l2 now bs as_).
Proof.
  intros s (Ho & Hl & Hq & Hc & new & Hbus & Hnew).
  unfold _emit_state_l2, bind, get, lift.
  destruct (floats (slice_to (top_n s) bs)) as [e|top_bids]; simpl;
    [by repeat split; eauto|].
  destruct (floats (slice_to (top_n s) as_)) as [e|top_asks]; simpl;
    [by repeat split; eauto|].
  destruct top_bids as [|[bb qb] rb]; simpl; [by repeat split; eauto|].
  destruct top_asks as [|[ba qa] ra]; simpl; [by repeat split; eauto|].
  repeat split; try done.
  eexists (new ++ [_]). split; [by rewrite Hbus, <- app_assoc|].
  apply Forall_app. split; [done|]. constructor; [|constructor].
  eexists. split; [reflexivity|]. by split.
Qed.

Lemma run_rest_only_fallback bus0 c polls :
  preserves (fallback_inv bus0 c) (_run_rest_only polls).
Proof.
  induction polls as [|[now [snap|]] polls IH]; simpl; [frame_step| |exact IH].
  apply preserves_bind; [apply emit_state_l2_fallback | intros _; exact IH].
Qed.

(** A poll whose two sides are readable and non-empty publishes one state,
    with the prices of the first entries as best bid and best ask. *)
Lemma emit_state_l2_publishes now bs as_ s bb qb rb ba qa ra :
  floats (slice_to (top_n s) bs) = inr ((bb, qb) :: rb) ->
  floats (slice_to (top_n s) as_) = inr ((ba, qa) :: ra) ->
  exists b,
    _emit_state_l2 now bs as_ s
    = Done tt (set_bus (bus s ++ [Bus.create_task_publish (L2Spec.book_event b)]) s)
    /\ Models.kind b = "L2"
    /\ Models.best_bid b = bb /\ Models.best_ask b = ba
    /\ Models.bids b = (bb, qb) :: rb /\ Models.asks b = (ba, qa) :: ra.
Proof.
  intros Hb Ha. unfold _emit_state_l2, bind, get, lift. rewrite Hb. simpl.
  rewrite Ha. simpl. eexists. split; [reflexivity|]. by repeat split.
Qed.

(** [_run_once] after a failed level-3 fetch. *)
Lemma run_once_failed_fetch ep s :
  fetched ep = None ->
  _run_once ep s
  = if allow_l2_fallback s && bool_decide (3 <= _snapshot_failures s + 1)
    then _run_rest_only (polls ep) (after_failed_fetch s)
    else Raised snapshot_failed (after_failed_fetch s).
Proof.
  intros Hf. unfold _run_once. rewrite Hf. rewrite !bind_modify.
  unfold bind, get. simpl. by destruct (_ && _).
Qed.


(** *** The order of the published states *)

Lemma level_of_cursor i b sd : preserves (cursor_bus_is i b) (level_of sd).
Proof. unfold level_of. repeat frame_step. Qed.

Lemma store_level_cursor i b sd m : preserves (cursor_bus_is i b) (store_level sd m).
Proof. unfold store_level. repeat frame_step. Qed.
Hint Resolve level_of_cursor store_level_cursor : frame.

Lemma add_order_cursor i b oid sd p sz :
  preserves (cursor_bus_is i b) (_add_order oid sd p sz).
Proof. unfold _add_order. repeat frame_step. Qed.

Lemma remove_order_cursor i b oid : preserves (cursor_bus_is i b) (_remove_order oid).
Proof. unfold _remove_order. repeat frame_step. Qed.
Hint Resolve add_order_cursor remove_order_cursor : frame.

Lemma apply_message_cursor i b msg :
  preserves (cursor_bus_is i b) (_apply_message msg).
Proof. unfold _apply_message. repeat frame_step. Qed.

Lemma emit_state_outcome now ts s :
  exists s',
    _emit_state now ts s = Done tt s'
    /\ last_sequence s' = last_sequence s
    /\ (bus s' = bus s
        \/ exists e, bus s' = bus s ++ [Bus.create_task_publish e]).
Proof.
  unfold _emit_state, bind, get, modify.
  destruct (book_state now ts s); simpl; eauto 6.
Qed.

Lemma step_outcome (gap_check : bool) now msg s :
  match (if gap_check then live_one (now, msg) else replay_one (now, msg)) s with
  | Done _ s' =>
      (last_sequence s' = last_sequence s /\ bus s' = bus s)
      \/ (last_sequence s < last_sequence s'
          /\ (bus s' = bus s
              \/ exists e, bus s' = bus s ++ [Bus.create_task_publish e]))
  | Raised _ s' => bus s' = bus s
  end.
Proof.
  assert (Happly : forall seq, ~ seq <= last_sequence s ->
    match (exec _apply_message msg;
           exec modify (set_last_sequence seq);
           _emit_state now (time msg)) s with
    | Done _ s' =>
        (last_sequence s' = last_sequence s /\ bus s' = bus s)
        \/ (last_sequence s < last_sequence s'
            /\ (bus s' = bus s
                \/ exists e, bus s' = bus s ++ [Bus.create_task_publish e]))
    | Raised _ s' => bus s' = bus s
    end).
  { intros seq Hseq. unfold bind at 1.
    pose proof (apply_message_cursor _ _ msg s (conj eq_refl eq_refl)) as [Hid Hbus].
    destruct (_apply_message msg s) as [[] s1|e s1]; simpl in *; [|done].
    rewrite bind_modify.
    destruct (emit_state_outcome now (time msg) (set_last_sequence seq s1))
      as (s2 & -> & Hseq2 & Hbus2).
    simpl in *. right. rewrite Hseq2, <- Hbus. split; [lia | done]. }
  destruct gap_check; unfold live_one, replay_one.
  - unfold bind at 1, lift.
    destruct (int_or0 (sequence msg)) as [e|seq]; simpl; [done|].
    unfold bind at 1, get.
    destruct (decide (seq <= last_sequence s)); [by left|].
    destruct (decide (seq > last_sequence s + 1)); [done|].
    by apply Happly.
  - unfold bind at 1, lift.
    destruct (int_or0 (sequence msg)) as [e|seq]; simpl; [done|].
    unfold bind at 1, get.
    destruct (decide (seq <= last_sequence s)); [by left|].
    by apply Happly.
Qed.

Lemma attempt_step_advancing : Ordering.advancing last_sequence bus attempt_step.
Proof.
  intros [[now msg]|[now msg]] s s' Hstep; simpl in Hstep;
    [pose proof (step_outcome false now msg s) as Ho
    |pose proof (step_outcome true now msg s) as Ho];
    simpl in Ho; rewrite Hstep in Ho;
    (destruct Ho as [[Hid Hbus]|[Hlt _]];
     [rewrite Hid, Hbus; split; lia | split; lia]).
Qed.

Lemma attempt_step_spawning : Ordering.spawning bus attempt_step.
Proof.
  intros [[now msg]|[now msg]] s; simpl;
    [pose proof (step_outcome false now msg s) as Ho
    |pose proof (step_outcome true now msg s) as Ho];
    simpl in Ho;
    (match goal with |- match ?r with _ => _ end => destruct r end; [|done]);
    (destruct Ho as [[_ Hbus]|[_ Hbus]]; auto).
Qed.

Lemma attempt_for_each buffered live s :
  (exec replay buffered; live_loop live) s
  = Ordering.for_each attempt_step (attempt_messages buffered live) s.
Proof.
  unfold attempt_messages. revert s.
  induction buffered as [|m buffered IH]; intros s; simpl.
  - unfold bind at 1. simpl. revert s.
    induction live as [|m live IHl]; intros s; simpl; [done|].
    unfold bind. destruct (live_one m s); [apply IHl | done].
  - unfold bind in *. simpl.
    destruct (replay_one m s) as [[] s1|]; [apply IH | done].
Qed.

End CoinbaseL3_facts.

(** ** The storage sink *)

Section Storage_facts.
Import Storage StorageSpec.

Lemma run_app (pre post : list (Qc * Bus.Event)) s :
  run (pre ++ post) s =
  match run pre s with
  | Done _ s' => run post s'
  | Raised e s' => Raised e s'
  end.
Proof.
  revert s. induction pre as [|ev pre IH]; intros s; simpl; [reflexivity|].
  unfold bind. destruct (run_one ev s); [apply IH | reflexivity].
Qed.

Lemma flush_returns (w : RollingParquetWriter) : exists w', flush w = Done tt w'.
Proof.
  unfold flush, bind, get, modify. destruct (_rows w); eexists; reflexivity.
Qed.

(** [write] raises only at its first statement, the division by a window of
    zero, before it has changed anything. *)
Lemma write_raised (r : row) (w w' : RollingParquetWriter) (e : exn) :
  write r w = Raised e w' -> w' = w /\ e = ZeroDivisionError.
Proof.
  unfold write. unfold bind at 1, get. unfold bind at 1, lift.
  destruct (_bucket_start_ms (ts_ms r) (window_sec w)) as [e0|bk] eqn:Hbk.
  - unfold _bucket_start_ms in Hbk.
    destruct (decide (window_sec w * 1000 = 0)); [|done].
    injection Hbk as <-. unfold raise. intros [= <- <-]. done.
  - unfold ret. destruct (_bucket_ms w) as [b|] eqn:Hb;
      unfold bind, get, modify, ret; simpl.
    + rewrite Hb. destruct (decide (Some bk = Some b)); [done|].
      destruct (flush_returns w) as [w1 ->]. done.
    + destruct (decide (Some bk = Some bk)); done.
Qed.

Lemma handle_book_raised (payload : Bus.any) (s s' : StorageSink) (e : exn) :
  handle_book payload s = Raised e s' -> s' = s.
Proof.
  unfold handle_book, bind, lift.
  destruct (row_of payload) as [e0|r]; [by intros [= _ <-]|].
  unfold ret, on_writer.
  destruct (write r (_writer s)) as [[] w|e0 w] eqn:Hw; [done|].
  apply write_raised in Hw as [-> _]. intros [= _ <-]. by destruct s.
Qed.

(** C8 (amended).  [run] has no handler around [handle_book]: when the
    handling of a [book_state] event raises, because its row cannot be built
    from the payload or for any other reason, the error leaves [handle_book]
    with the sink as it was, and [run] ends with that error at that event;
    no later event is consumed. *)
Theorem serialization_error_ends_run
    (pre post : list (Qc * Bus.Event)) now (ev : Bus.Event)
    (s s1 : StorageSink) (e : exn) :
  run pre s = Done tt s1 ->
  Bus.type ev = "book_state" ->
  row_of (Bus.payload ev) = inl e
  \/ (exists s2, handle_book (Bus.payload ev) s1 = Raised e s2) ->
  handle_book (Bus.payload ev) s1 = Raised e s1
  /\ run (pre ++ (now, ev) :: post) s = Raised e s1.
Proof.
  intros Hpre Hty Hfail.
  assert (Hh : handle_book (Bus.payload ev) s1 = Raised e s1).
  { destruct Hfail as [Hrow|[s2 Hraise]].
    - unfold handle_book, bind, lift. by rewrite Hrow.
    - by rewrite <- (handle_book_raised _ _ _ _ Hraise) at 2. }
  split; [exact Hh|].
  rewrite run_app, Hpre. cbn [run]. unfold bind at 1. unfold run_one.
  destruct (decide (Bus.type ev = "book_state")); [|done].
  unfold bind at 1. by rewrite Hh.
Qed.

(** *** Pages *)

#[local] Instance ts_le_total : Total ts_le.
Proof. intros x y. unfold ts_le. lia. Qed.

Lemma sort_values_sorted l : Sorted ts_le (sort_values l).
Proof. apply (Sorted_merge_sort ts_le). Qed.

Lemma sort_values_perm l : sort_values l ≡ₚ l.
Proof. apply merge_sort_Permutation. Qed.

Lemma drop_duplicates_from_spec seen l :
  NoDup (key <$> drop_duplicates_from seen l)
  /\ (forall r, r ∈ drop_duplicates_from seen l -> r ∈ l /\ key r ∉ seen)
  /\ (forall r, r ∈ l -> key r ∈ seen
        \/ exists r', r' ∈ drop_duplicates_from seen l /\ key r' = key r).
Proof.
  revert seen. induction l as [|r l IH]; intros seen; simpl.
  - split; [constructor|]. split; intros r Hr; by apply elem_of_nil in Hr.
  - destruct (decide (key r ∈ seen)) as [Hin|Hnin].
    + destruct (IH seen) as (Hnd & Hsub & Hcov). split; [done|]. split.
      * intros r' Hr'. destruct (Hsub r' Hr') as [? ?]. split; [|done].
        by apply elem_of_cons; right.
      * intros r' Hr'. apply elem_of_cons in Hr' as [->|Hr']; [by left|].
        by apply Hcov.
    + destruct (IH (key r :: seen)) as (Hnd & Hsub & Hcov). split; [|split].
      * simpl. apply NoDup_cons. split; [|done].
        intros Hk. apply list_elem_of_fmap in Hk as (r' & Hkey & Hr').
        destruct (Hsub r' Hr') as [_ Hn]. apply Hn. rewrite <- Hkey.
        by apply elem_of_cons; left.
      * intros r' Hr'. apply elem_of_cons in Hr' as [->|Hr'].
        -- split; [by apply elem_of_cons; left | done].
        -- destruct (Hsub r' Hr') as [? Hn]. split.
           ++ by apply elem_of_cons; right.
           ++ intros Hs. apply Hn. by apply elem_of_cons; right.
      * intros r' Hr'. apply elem_of_cons in Hr' as [->|Hr'].
        -- right. exists r. split; [by apply elem_of_cons; left | done].
        -- destruct (Hcov r' Hr') as [Hs|(r'' & Hr'' & Hk)].
           ++ apply elem_of_cons in Hs as [Hs|Hs]; [|by left].
              right. exists r. split; [by apply elem_of_cons; left | done].
           ++ right. exists r''. split; [by apply elem_of_cons; right | done].
Qed.

Lemma write_in_bucket w bk r :
  in_bucket (window_sec w) bk r ->
  _bucket_ms w = None \/ _bucket_ms w = Some bk ->
  write r w = Done tt (set_rows (_rows w ++ [r]) (set_bucket_ms (Some bk) w)).
Proof.
  intros Hin Hbk. unfold in_bucket in Hin.
  unfold write, bind, get, lift. rewrite Hin. simpl.
  destruct Hbk as [Hbk|Hbk]; rewrite Hbk; simpl.
  - destruct (decide (Some bk = Some bk)); [reflexivity | done].
  - rewrite Hbk. destruct (decide (Some bk = Some bk)); [|done].
    unfold ret, modify, set_rows, set_bucket_ms. simpl. by rewrite Hbk.
Qed.

Lemma write_all_in_bucket l w bk :
  Forall (in_bucket (window_sec w) bk) l ->
  l <> [] ->
  _bucket_ms w = None \/ _bucket_ms w = Some bk ->
  write_all l w = Done tt (set_rows (_rows w ++ l) (set_bucket_ms (Some bk) w)).
Proof.
  revert w. induction l as [|r l IH]; intros w Hall Hne Hbk; [done|].
  apply Forall_cons in Hall as [Hr Hall].
  cbn [write_all]. unfold bind at 1. rewrite (write_in_bucket w bk r Hr Hbk).
  destruct l as [|r' l].
  - reflexivity.
  - rewrite IH; [|exact Hall|done|by right]. simpl. by rewrite <- app_assoc.
Qed.

Lemma flush_rows w :
  _rows w <> [] ->
  flush w = Done tt
    (set_rows []
       (set_files
          (<[bucket_or0 (_bucket_ms w) :=
               Page match files w !! bucket_or0 (_bucket_ms w) with
                    | Some (Page existing) =>
                        sort_values (drop_duplicates (existing ++ _rows w))
                    | _ => _rows w
                    end]> (files w)) w)).
Proof.
  intros Hne. unfold flush, bind, get. destruct (_rows w) eqn:Hrows; [done|].
  simpl. by destruct (files w !! _) as [[]|].
Qed.

(** C5.  Two non-empty batches of rows of one bucket, written and flushed
    one after the other by a writer that starts with no buffered row and no
    page for that bucket: the page then read back holds the rows of both
    batches with one row (the first) per (ts_ms, venue), in ascending
    [ts_ms]: it is sorted, no key occurs twice, each of its rows comes from
    a batch, and each key of a batch is on it. *)
Theorem merge_round_trip (w : RollingParquetWriter) (bk : Z) (b1 b2 : list row) :
  _rows w = [] ->
  _bucket_ms w = None \/ _bucket_ms w = Some bk ->
  files w !! bk = None ->
  b1 <> [] -> b2 <> [] ->
  Forall (in_bucket (window_sec w) bk) (b1 ++ b2) ->
  exists w' page,
    two_flushes b1 b2 w = Done tt w'
    /\ files w' !! bk = Some (Page page)
    /\ _rows w' = []
    /\ page = sort_values (drop_duplicates (b1 ++ b2))
    /\ Sorted ts_le page
    /\ NoDup (key <$> page)
    /\ (forall r, r ∈ page -> r ∈ b1 ++ b2)
    /\ (forall r, r ∈ b1 ++ b2 -> exists r', r' ∈ page /\ key r' = key r).
Proof.
  intros Hrows Hbk Hfile Hne1 Hne2 Hall.
  apply Forall_app in Hall as [Hall1 Hall2].
  unfold two_flushes.
  unfold bind at 1. rewrite (write_all_in_bucket b1 w bk Hall1 Hne1 Hbk).
  rewrite Hrows. cbn [app].
  unfold bind at 1. rewrite flush_rows by (simpl; exact Hne1).
  cbn [_rows _bucket_ms files window_sec set_rows set_bucket_ms set_files
       bucket_or0 default id].
  rewrite Hfile.
  unfold bind at 1.
  rewrite (write_all_in_bucket b2 _ bk); [|exact Hall2|exact Hne2|by right].
  cbn [_rows _bucket_ms files window_sec set_rows set_bucket_ms set_files app].
  rewrite flush_rows by (simpl; exact Hne2).
  cbn [_rows _bucket_ms files window_sec set_rows set_bucket_ms set_files
       bucket_or0 default id].
  rewrite lookup_insert_eq.
  destruct (drop_duplicates_from_spec [] (b1 ++ b2)) as (Hnd & Hsub & Hcov).
  eexists _, _. split; [reflexivity|]. split; [apply lookup_insert_eq|].
  split; [reflexivity|]. split; [reflexivity|].
  split; [apply sort_values_sorted|]. split; [|split].
  - by rewrite sort_values_perm.
  - intros r Hr. rewrite sort_values_perm in Hr. by apply Hsub.
  - intros r Hr. destruct (Hcov r Hr) as [Hs|(r' & Hr' & Hk)].
    + by apply elem_of_nil in Hs.
    + exists r'. split; [by rewrite sort_values_perm | done].
Qed.

End Storage_facts.

(** ** Publication *)

Section Publication_facts.
Context `{Builtins}.


End Publication_facts.

Lemma stale_delta_skipped_witness :
  let s := BinanceL2.set_book_update_id 101 Scenario.builder0 in
  BinanceL2.live_one (H := decimal_builtins)
    (0%Qc, Scenario.delta 95 100 [] []) s = Done tt s.
Proof.
  intros s.
  apply (stale_delta_skipped (H := decimal_builtins) s 0%Qc
           (Scenario.delta 95 100 [] []) 100 95);
    [reflexivity | reflexivity | vm_compute; discriminate].
Defined.

Lemma gap_raises_and_resyncs_witness :
  exists s,
    BinanceL2.book_update_id s = 101
    /\ BinanceL2.live_one (H := decimal_builtins) (0%Qc, Scenario.delta_B) s
       = Raised L2Spec.gap s
    /\ BinanceL2._resync_count
         (BinanceL2.start (H := decimal_builtins)
            [Scenario.epoch_A [(0%Qc, Scenario.delta_B)]] Scenario.builder0)
       = 1.
Proof.
  pose (ep := Scenario.epoch_A [(0%Qc, Scenario.delta_B)]).
  pose (r := BinanceL2.synchronise (H := decimal_builtins) ep Scenario.builder0).
  pose (s := final r).
  exists s.
  assert (Hsync : BinanceL2.synchronise (H := decimal_builtins) ep
                    Scenario.builder0
                  = Done (BinanceL2.Synced ([] ++ (0%Qc, Scenario.delta_B) :: []))
                      s) by (vm_compute; reflexivity).
  assert (Hid : BinanceL2.book_update_id s = 101) by (vm_compute; reflexivity).
  assert (Hu : 110 > BinanceL2.book_update_id s) by (rewrite Hid; lia).
  assert (HU : 105 > BinanceL2.book_update_id s + 1) by (rewrite Hid; lia).
  destruct (gap_raises_and_resyncs (H := decimal_builtins) ep
              [] Scenario.builder0 s s [] 0%Qc Scenario.delta_B [] 110 105
              Hsync eq_refl eq_refl eq_refl Hu HU) as (Hone & _ & _ & Hstart).
  split; [exact Hid | split; [exact Hone |]].
  fold ep. rewrite Hstart. reflexivity.
Defined.




(** The third failed fetch of [ScenarioL3.failing_epoch]: the one poll is
    published as a level-2 state. *)
Example fallback_publishes_l2_state :
  CoinbaseL3.bus
    (final (CoinbaseL3._run_once (H := decimal_builtins) ScenarioL3.failing_epoch
              (CoinbaseL3.set_snapshot_failures 2 ScenarioL3.builder0)))
  = [Bus.create_task_publish (L2Spec.book_event ScenarioL3.fallback_state)].
Proof. vm_compute. reflexivity. Qed.

(** Scenario A with the decimal strings Binance sends. *)
Example scenario_A_strings :
  let snap := {| BinanceL2.lastUpdateId := Scenario.num 100;
                 BinanceL2.snap_bids := [(JStr "10.00", JStr "1.000")];
                 BinanceL2.snap_asks := [(JStr "10.50", JStr "1.000")] |} in
  let ep := {| BinanceL2.fetched := [Some snap];
               BinanceL2.buffered :=
                 [(0%Qc, Scenario.delta 95 100 [] []);
                  (0%Qc, Scenario.delta 101 101 [(JStr "10.00", JStr "0.000")] [])];
               BinanceL2.live := [] |} in
  let s := final (BinanceL2._run_once (H := decimal_builtins) ep Scenario.builder0) in
  BinanceL2.bids s = ∅
  /\ BinanceL2.asks s = {[ Scenario.price 1050 100 := Scenario.price 1000 1000 ]}
  /\ BinanceL2.book_update_id s = 101.
Proof. repeat split; vm_compute; reflexivity. Qed.

Lemma absent_order_is_noop_witness :
  CoinbaseL3._apply_message (H := decimal_builtins)
    (ScenarioL3.done_msg "zz") ScenarioL3.builder0
  = Done tt ScenarioL3.builder0.
Proof.
  apply (absent_order_is_noop (H := decimal_builtins)).
  right. left. split; reflexivity.
Defined.


(** C8, as stated, fails: the first event has a payload whose row cannot be
    built; [run] raises at it, and the second, well-formed event is never
    handled (no row is buffered, none is counted, no page is written).  The
    same happens to a well-formed [BookState] whose row cannot be written:
    in a sink made with a window of zero the first event makes [run] raise,
    and the second is never handled. *)
Lemma serialization_error_is_fatal :
  Storage.run StorageSpec.bad_then_good StorageSpec.sink0
  = Raised AttributeError StorageSpec.sink0
  /\ (exists s', Storage.run (tail StorageSpec.bad_then_good) StorageSpec.sink0
                 = Done tt s'
                 /\ Storage.counts s' = 1
                 /\ length (Storage._rows (Storage._writer s')) = 1%nat)
  /\ Storage.run StorageSpec.good_twice StorageSpec.sink_no_window
     = Raised ZeroDivisionError StorageSpec.sink_no_window.
Proof.
  split; [reflexivity|]. split; [|vm_compute; reflexivity].
  eexists. split; [vm_compute; reflexivity|].
  split; reflexivity.
Qed.

Lemma serialization_error_ends_run_witness :
  Storage.handle_book (Bus.payload StorageSpec.bad_event) StorageSpec.sink0
  = Raised AttributeError StorageSpec.sink0
  /\ Storage.run ([] ++ (0%Qc, StorageSpec.bad_event)
                    :: tail StorageSpec.bad_then_good) StorageSpec.sink0
     = Raised AttributeError StorageSpec.sink0.
Proof.
  apply (serialization_error_ends_run [] (tail StorageSpec.bad_then_good)
           0%Qc StorageSpec.bad_event StorageSpec.sink0 StorageSpec.sink0
           AttributeError); [reflexivity | reflexivity | left; reflexivity].
Defined.

Lemma merge_round_trip_witness :
  exists w' page,
    StorageSpec.two_flushes
      [StorageSpec.row_at 2000 "binance"; StorageSpec.row_at 1000 "coinbase"]
      [StorageSpec.row_at 2000 "binance"; StorageSpec.row_at 1500 "binance"]
      StorageSpec.writer0 = Done tt w'
    /\ Storage.files w' !! 0 = Some (Storage.Page page)
    /\ page = [StorageSpec.row_at 1000 "coinbase";
               StorageSpec.row_at 1500 "binance";
               StorageSpec.row_at 2000 "binance"].
Proof.
  destruct (merge_round_trip StorageSpec.writer0 0
              [StorageSpec.row_at 2000 "binance"; StorageSpec.row_at 1000 "coinbase"]
              [StorageSpec.row_at 2000 "binance"; StorageSpec.row_at 1500 "binance"])
    as (w' & page & Hrun & Hfile & _ & Hpage & _);
    [reflexivity | by left | reflexivity | done | done
    | repeat constructor |].
  exists w', page. split; [exact Hrun|]. split; [exact Hfile|].
  rewrite Hpage. vm_compute. reflexivity.
Defined.


(** * Further properties of the code *)

(** ** storage.py *)

Section Storage_more.
Import Storage StorageSpec StoreInv.

(** X1.  [_bucket_start_ms] with a zero window divides by zero; with a
    positive window it gives the start of the window of [window_sec] seconds
    that holds the timestamp: a multiple of the window length, at or before
    the timestamp and less than one window before it, and its own bucket
    start. *)
Theorem bucket_start_bounds (ts window : Z) :
  _bucket_start_ms ts 0 = inl ZeroDivisionError
  /\ (0 < window ->
      exists bk,
        _bucket_start_ms ts window = inr bk
        /\ bk <= ts < bk + window * 1000
        /\ bk mod (window * 1000) = 0
        /\ _bucket_start_ms bk window = inr bk).
Proof.
  split; [reflexivity|]. intros Hpos. unfold _bucket_start_ms.
  destruct (decide (window * 1000 = 0)) as [Hz|_]; [lia|].
  exists (ts / (window * 1000) * (window * 1000)).
  split; [reflexivity|].
  pose proof (Z.mul_div_le ts (window * 1000) ltac:(lia)).
  pose proof (Z.mul_succ_div_gt ts (window * 1000) ltac:(lia)).
  split; [lia|]. split; [apply Z.mod_mul; lia|].
  f_equal. rewrite Z.div_mul by lia. reflexivity.
Qed.

Lemma bucket_start_bounds_witness :
  exists bk,
    _bucket_start_ms 1234567 300 = inr bk
    /\ bk <= 1234567 < bk + 300 * 1000
    /\ bk mod (300 * 1000) = 0
    /\ _bucket_start_ms bk 300 = inr bk.
Proof. apply (bucket_start_bounds 1234567 300). lia. Defined.

Lemma drop_duplicates_from_all_seen seen l :
  (forall r, r ∈ l -> key r ∈ seen) -> drop_duplicates_from seen l = [].
Proof.
  induction l as [|r l IH]; intros Hall; simpl; [done|].
  destruct (decide (key r ∈ seen)) as [_|Hn].
  - apply IH. intros r' Hr'. apply Hall. by apply elem_of_cons; right.
  - destruct Hn. apply Hall. by apply elem_of_cons; left.
Qed.

Lemma drop_duplicates_from_known seen l extra :
  NoDup (key <$> l) ->
  (forall r, r ∈ l -> key r ∉ seen) ->
  (forall r, r ∈ extra -> key r ∈ seen \/ key r ∈ key <$> l) ->
  drop_duplicates_from seen (l ++ extra) = l.
Proof.
  revert seen. induction l as [|x l IH]; intros seen Hnd Hfresh Hknown; simpl.
  - apply drop_duplicates_from_all_seen. intros r Hr.
    destruct (Hknown r Hr) as [Hs|Hs]; [done|]. by apply elem_of_nil in Hs.
  - simpl in Hnd. apply NoDup_cons in Hnd as [Hx Hnd].
    destruct (decide (key x ∈ seen)) as [Hin|_].
    { destruct (Hfresh x); [by apply elem_of_cons; left | done]. }
    f_equal. apply IH; [done| |].
    + intros r Hr Hs. apply elem_of_cons in Hs as [Hs|Hs].
      * apply Hx. rewrite <- Hs. apply list_elem_of_fmap. by exists r.
      * apply (Hfresh r); [by apply elem_of_cons; right | done].
    + intros r Hr. destruct (Hknown r Hr) as [Hs|Hs].
      * left. by apply elem_of_cons; right.
      * simpl in Hs. apply elem_of_cons in Hs as [Hs|Hs].
        -- left. apply elem_of_cons. by left.
        -- by right.
Qed.

Lemma drop_duplicates_sub seen l r : r ∈ drop_duplicates_from seen l -> r ∈ l.
Proof. intros Hr. by apply (drop_duplicates_from_spec seen l). Qed.

(** X2.  [flush] never raises and always leaves the buffer empty (a page
    that cannot be read is handled by the code; writing a page is taken to
    succeed).  With an empty buffer it changes nothing (no page is created
    or rewritten), so a second flush in a row is a no-op.  Otherwise,
    whatever it finds at the page of the bucket (nothing, a page, an
    unreadable file), the page it leaves holds a row for the (ts_ms, venue)
    of every buffered row. *)
Theorem flush_persists_buffer (w : RollingParquetWriter) :
  exists w',
    flush w = Done tt w'
    /\ _rows w' = []
    /\ (_rows w = [] -> w' = w)
    /\ flush w' = Done tt w'
    /\ (forall r, r ∈ _rows w ->
         exists page r',
           files w' !! bucket_or0 (_bucket_ms w) = Some (Page page)
           /\ r' ∈ page /\ key r' = key r).
Proof.
  unfold flush at 1. unfold bind, get.
  destruct (_rows w) as [|r0 rows] eqn:Hrows; simpl.
  - exists w. split; [done|]. split; [done|]. split; [done|]. split.
    + unfold flush, bind, get. by rewrite Hrows.
    + intros r Hr. by apply elem_of_nil in Hr.
  - eexists. split; [reflexivity|]. simpl. split; [done|].
    split; [done|]. split; [reflexivity|].
    intros r Hr. rewrite lookup_insert_eq.
    destruct (files w !! bucket_or0 (_bucket_ms w)) as [[existing|]|] eqn:Hf;
      try (exists (r0 :: rows), r; by repeat split).
    destruct (drop_duplicates_from_spec [] (existing ++ r0 :: rows))
      as (_ & _ & Hcov).
    destruct (Hcov r) as [Hs|(r' & Hr' & Hk)].
    + apply elem_of_app. by right.
    + by apply elem_of_nil in Hs.
    + eexists _, r'. split; [reflexivity|]. split; [|done].
      unfold sort_values. by rewrite merge_sort_Permutation.
Qed.

(** X3.  Flushing rows whose (ts_ms, venue) keys are all on the page
    already (the page holding one row per key) rewrites the page with the
    same rows: accumulation into a bucket is idempotent. *)
Theorem reflush_keeps_page (w : RollingParquetWriter) (page : list row) :
  files w !! bucket_or0 (_bucket_ms w) = Some (Page page) ->
  NoDup (key <$> page) ->
  _rows w <> [] ->
  (forall r, r ∈ _rows w -> key r ∈ key <$> page) ->
  exists w' page',
    flush w = Done tt w'
    /\ files w' !! bucket_or0 (_bucket_ms w) = Some (Page page')
    /\ page' ≡ₚ page
    /\ Sorted ts_le page'.
Proof.
  intros Hfile Hnd Hne Hknown.
  rewrite flush_rows by done. rewrite Hfile.
  eexists _, _. split; [reflexivity|]. simpl.
  split; [apply lookup_insert_eq|].
  unfold drop_duplicates.
  rewrite (drop_duplicates_from_known [] page (_rows w)); [| done | |].
  - split; [apply sort_values_perm | apply sort_values_sorted].
  - intros r _ Hs. by apply elem_of_nil in Hs.
  - intros r Hr. right. by apply Hknown.
Qed.

Lemma reflush_keeps_page_witness :
  let page := [row_at 1000 "coinbase"; row_at 2000 "binance"] in
  let w := {| window_sec := 300; _bucket_ms := Some 0;
              _rows := [row_at 2000 "binance"];
              files := {[ 0 := Page page ]} |} in
  exists w' page',
    flush w = Done tt w'
    /\ files w' !! bucket_or0 (_bucket_ms w) = Some (Page page')
    /\ page' ≡ₚ page
    /\ Sorted ts_le page'.
Proof.
  intros page w. apply (reflush_keeps_page w page).
  - reflexivity.
  - simpl. apply NoDup_cons. split; [|apply NoDup_singleton].
    intros Hin. apply list_elem_of_singleton in Hin. discriminate.
  - done.
  - intros r Hr. apply list_elem_of_singleton in Hr as ->.
    simpl. apply elem_of_cons. right. apply elem_of_cons. by left.
Defined.

Lemma flush_done w :
  exists w',
    flush w = Done tt w' /\ _rows w' = []
    /\ window_sec w' = window_sec w /\ _bucket_ms w' = _bucket_ms w.
Proof.
  unfold flush, bind, get. destruct (_rows w) eqn:Hrows; simpl; eauto 6.
Qed.

Lemma flush_store_inv w : store_inv w -> store_inv (final (flush w)).
Proof.
  intros [Hhom Hpages]. unfold flush, bind, get.
  destruct (_rows w) as [|r0 rows] eqn:Hrows; simpl; [by split|].
  split.
  - intros r Hr. by apply elem_of_nil in Hr.
  - assert (Hbuf : exists b, _bucket_ms w = Some b
       /\ Forall (in_bucket (window_sec w) b) (r0 :: rows)).
    { destruct (Hhom r0) as (b & Hb & _); [rewrite Hrows; by left|].
      exists b. split; [done|]. apply Forall_forall. intros r Hr.
      destruct (Hhom r) as (b' & Hb' & Hin); [by rewrite Hrows|].
      congruence. }
    destruct Hbuf as (b & Hb & Hall). rewrite Hb. simpl.
    intros b' pg. simpl.
    destruct (decide (b = b')) as [<-|Hne].
    + rewrite lookup_insert_eq. intros [= <-].
      destruct (files w !! b) as [[existing|]|] eqn:Hf; try done.
      apply Forall_forall. intros r Hr.
      unfold sort_values in Hr. rewrite merge_sort_Permutation in Hr.
      apply drop_duplicates_sub in Hr. apply elem_of_app in Hr as [Hr|Hr].
      * specialize (Hpages b existing Hf). by eapply Forall_forall in Hpages.
      * by eapply Forall_forall in Hall.
    + rewrite lookup_insert_ne by done. apply Hpages.
Qed.

(** X4.  The writer keeps its rows apart by bucket: if the buffered rows
    belong to the bucket being filled and every page holds rows of its own
    bucket only, the same holds after [write] (also when it rolls over to a
    new bucket, or raises) and after [flush]. *)
Theorem writer_keeps_buckets_apart (w : RollingParquetWriter) (r : row) :
  store_inv w ->
  store_inv (final (write r w)) /\ store_inv (final (flush w)).
Proof.
  intros Hinv. split; [|by apply flush_store_inv].
  destruct Hinv as [Hhom Hpages].
  unfold write. unfold bind at 1, get. unfold bind at 1, lift.
  destruct (_bucket_start_ms (ts_ms r) (window_sec w)) as [e|bk] eqn:Hbk;
    simpl; [by split|].
  assert (Hadd : forall w0 : RollingParquetWriter,
    window_sec w0 = window_sec w -> _bucket_ms w0 = Some bk ->
    store_inv w0 -> store_inv (set_rows (_rows w0 ++ [r]) w0)).
  { intros w0 Hwin Hb0 [Hh0 Hp0]. split; [|exact Hp0].
    intros r' Hr'. simpl in Hr'. apply elem_of_app in Hr' as [Hr'|Hr'].
    - apply (Hh0 r' Hr').
    - apply list_elem_of_singleton in Hr' as ->. exists bk. split; [done|].
      unfold in_bucket. simpl. by rewrite Hwin. }
  destruct (_bucket_ms w) as [b|] eqn:Hb; unfold bind, get, modify; simpl.
  - rewrite Hb. destruct (decide (Some bk = Some b)) as [[= <-]|Hne]; simpl.
    + by apply Hadd.
    + pose proof (flush_store_inv w (conj Hhom Hpages)) as Hfl.
      destruct (flush_done w) as (w1 & Hflush & Hempty & Hwin & _).
      rewrite Hflush in Hfl |- *. simpl in *.
      destruct Hfl as [_ Hp1]. split.
      * intros r' Hr'. simpl in Hr'. rewrite Hempty in Hr'.
        apply list_elem_of_singleton in Hr' as ->. exists bk. split; [done|].
        unfold in_bucket. simpl. by rewrite Hwin.
      * exact Hp1.
  - destruct (decide (Some bk = Some bk)); [|done]. simpl.
    split; [|exact Hpages].
    intros r' Hr'. simpl in Hr'. apply elem_of_app in Hr' as [Hr'|Hr'].
    + destruct (Hhom r' Hr') as (b' & Hb' & _). congruence.
    + apply list_elem_of_singleton in Hr' as ->. by exists bk.
Qed.

Lemma writer_keeps_buckets_apart_witness :
  store_inv (final (write (row_at 1000 "binance") writer0))
  /\ store_inv (final (flush writer0)).
Proof.
  apply (writer_keeps_buckets_apart writer0 (row_at 1000 "binance")).
  split.
  - intros r Hr. by apply elem_of_nil in Hr.
  - intros b page Hf. simpl in Hf. by rewrite lookup_empty in Hf.
Defined.

Lemma flush_persists_buffer_witness :
  let w := {| window_sec := 300; _bucket_ms := Some 0;
              _rows := [row_at 2000 "binance"]; files := ∅ |} in
  exists w',
    flush w = Done tt w'
    /\ _rows w' = []
    /\ (_rows w = [] -> w' = w)
    /\ flush w' = Done tt w'
    /\ (forall r, r ∈ _rows w ->
         exists page r',
           files w' !! bucket_or0 (_bucket_ms w) = Some (Page page)
           /\ r' ∈ page /\ key r' = key r).
Proof. intros w. apply (flush_persists_buffer w). Defined.

Lemma write_done w r :
  window_sec w <> 0 ->
  exists w', write r w = Done tt w' /\ window_sec w' = window_sec w.
Proof.
  intros Hwin. unfold write. unfold bind at 1, get. unfold bind at 1, lift.
  unfold _bucket_start_ms.
  destruct (decide (window_sec w * 1000 = 0)) as [Hz|_]; [lia|]. simpl.
  set (bk := ts_ms r / (window_sec w * 1000) * (window_sec w * 1000)).
  destruct (_bucket_ms w) as [b|] eqn:Hb; unfold bind, get, modify; simpl.
  - rewrite Hb. destruct (decide (Some bk = Some b)); simpl; [eauto|].
    destruct (flush_done w) as (w1 & -> & _ & Hw1 & _). simpl. eauto.
  - destruct (decide (Some bk = Some bk)); [|done]. simpl. eauto.
Qed.

Lemma run_one_done (ev : Qc * Bus.Event) (s : StorageSink) :
  window_sec (_writer s) <> 0 ->
  carries_book ev ->
  exists s',
    run_one ev s = Done tt s'
    /\ window_sec (_writer s') = window_sec (_writer s)
    /\ counts s' = counts s + (if decide (is_book_state ev) then 1 else 0).
Proof.
  intros Hwin Hbook. destruct ev as [now ev]. unfold run_one.
  unfold carries_book, is_book_state in *. simpl in *.
  destruct (decide (Bus.type ev = "book_state")) as [Hty|_];
    [|exists s; repeat split; lia].
  destruct (Hbook Hty) as [b Hb]. rewrite Hb.
  unfold handle_book. simpl. unfold bind at 1 2. unfold lift, ret.
  unfold on_writer at 1.
  destruct (write_done (_writer s) (row_of_book b) Hwin) as (w1 & Hw & Hwin1).
  unfold row_of_book in Hw. rewrite Hw. simpl.
  rewrite bind_modify. unfold bind at 1, get. simpl.
  destruct (decide _); simpl.
  - unfold bind, on_writer, modify. simpl.
    destruct (flush_done w1) as (w2 & -> & _ & Hwin2 & _). simpl.
    eexists. split; [reflexivity|]. simpl. split; [congruence | lia].
  - eexists. split; [reflexivity|]. simpl. split; [congruence | lia].
Qed.

(** X5.  When the window is not zero and every [book_state] event carries
    a [BookState] (as every event of the builders does), [run] handles the
    whole stream without raising (writing a page being taken to succeed); it
    counts exactly the [book_state] events and skips the events of any other
    type. *)
Theorem run_counts_book_states (events : list (Qc * Bus.Event)) (s : StorageSink) :
  window_sec (_writer s) <> 0 ->
  Forall carries_book events ->
  exists s',
    run events s = Done tt s'
    /\ counts s' = counts s + Z.of_nat (length (filter is_book_state events)).
Proof.
  revert s. induction events as [|ev events IH]; intros s Hwin Hall.
  - exists s. split; [done|]. simpl. lia.
  - apply Forall_cons in Hall as [Hev Hall].
    destruct (run_one_done ev s Hwin Hev) as (s1 & Hone & Hwin1 & Hc1).
    destruct (IH s1) as (s' & Hrun & Hc); [congruence | done |].
    exists s'. cbn [run]. unfold bind at 1. rewrite Hone. split; [done|].
    rewrite Hc, Hc1. rewrite filter_cons.
    destruct (decide (is_book_state ev)); simpl; lia.
Qed.

Lemma run_counts_book_states_witness :
  exists s',
    run (tail bad_then_good) sink0 = Done tt s'
    /\ counts s' = counts sink0
         + Z.of_nat (length (filter is_book_state (tail bad_then_good))).
Proof.
  apply (run_counts_book_states (tail bad_then_good) sink0); [done|].
  repeat constructor. intros _. by eexists.
Defined.

End Storage_more.

(** ** exchanges/binance_l2.py *)

Section BinanceL2_more.
Import BinanceL2 L2Spec L2More.
Context `{Builtins}.


(** X7.  The snapshot the refetch loop settles on is not older than the
    stream: its [lastUpdateId] is at least [first_u], and every snapshot
    fetched before it was below [first_u]. *)
Theorem fetch_until_not_stale (fu : Z) (l : list (option snapshot))
    (snap : snapshot) (last_id : Z) :
  fetch_until (Some fu) l = inr (Got snap last_id) ->
  fu <= last_id
  /\ int (lastUpdateId snap) = inr last_id
  /\ exists pre post,
       l = pre ++ Some snap :: post /\ Forall (stale_fetch fu) pre.
Proof.
  induction l as [|[sn|] l IH]; simpl; [done| |done].
  destruct (int (lastUpdateId sn)) as [e|i] eqn:Hi; [done|].
  destruct (decide (i < fu)) as [Hlt|Hge].
  - intros Hrest. destruct (IH Hrest) as (Hle & Hint & pre & post & -> & Hpre).
    split; [done|]. split; [done|].
    exists (Some sn :: pre), post. split; [done|].
    constructor; [|done]. by exists sn, i.
  - intros [= <- <-]. split; [lia|]. split; [done|].
    exists [], l. by split.
Qed.

(** X8.  When a snapshot fetch fails, [_run_once] returns normally with an
    empty book and the cursor at zero: no exception reaches [start], which
    therefore does not count a resync for this attempt and goes straight on
    to the next one. *)
Theorem failed_fetch_returns_quietly (ep : epoch) (epochs : list epoch)
    (s : BinanceL2BookBuilder) :
  fetch_until (first_u_of (buffered ep)) (fetched ep) = inr NoSnapshot ->
  _run_once ep s = Done Returned (cleared s)
  /\ _resync_count (cleared s) = _resync_count s
  /\ bus (cleared s) = bus s
  /\ start (ep :: epochs) s = start epochs (cleared s).
Proof.
  intros Hf.
  assert (Hrun : _run_once ep s = Done Returned (cleared s)).
  { unfold _run_once, synchronise. unfold bind at 1. rewrite !bind_modify.
    unfold bind, lift. rewrite Hf. reflexivity. }
  split; [exact Hrun|]. split; [done|]. split; [done|].
  simpl. by rewrite Hrun.
Qed.

(** X9.  If the replay of the buffer ends without having applied any event,
    every buffered event was stale (end id at or below the cursor) and the
    builder is exactly as it was: an event above the cursor is either
    applied or raises the gap error, never passed over. *)
Theorem replay_applies_or_all_stale (evs : list (Qc * depth_event))
    (applied : bool) (s s' : BinanceL2BookBuilder) :
  replay evs applied s = Done false s' ->
  s' = s /\ applied = false
  /\ Forall (stale_event (book_update_id s)) evs.
Proof.
  revert applied s. induction evs as [|[now ev] evs IH]; intros applied s; simpl.
  - intros [= -> ->]. by repeat split.
  - unfold bind at 1. unfold replay_one. unfold bind at 1, lift.
    destruct (int_or0 (ev_u ev)) as [e|u] eqn:Hu; simpl; [done|].
    unfold bind at 1.
    destruct (int_or0 (ev_U ev)) as [e|U] eqn:HU; simpl; [done|].
    unfold bind at 1, get.
    destruct (decide (u <= book_update_id s)) as [Hle|Hgt].
    + simpl. rewrite orb_false_r. intros Hrest.
      destruct (IH _ _ Hrest) as (-> & -> & Hall).
      repeat split; [done..|]. constructor; [|done]. by exists u.
    + destruct (decide (U <= book_update_id s + 1 <= u)) as [Hbridge|Hno].
      * unfold bind. destruct (_apply_event now ev s) as [[] s1|]; simpl; [|done].
        rewrite orb_true_r. intros Hrest.
        destruct (IH _ _ Hrest) as (_ & Habs & _). done.
      * destruct (decide (U > book_update_id s + 1)); [done|]. lia.
Qed.


(** *** Nothing is published before the live loop *)

Lemma apply_bids_bus b l : preserves (bus_is b) (apply_bids l).
Proof. induction l as [|[p q] l IH]; simpl; repeat frame_step. Qed.

Lemma apply_asks_bus b l : preserves (bus_is b) (apply_asks l).
Proof. induction l as [|[p q] l IH]; simpl; repeat frame_step. Qed.
Hint Resolve apply_bids_bus apply_asks_bus : frame.

Lemma apply_event_bus b now ev : preserves (bus_is b) (_apply_event now ev).
Proof. unfold _apply_event. repeat frame_step. Qed.
Hint Resolve apply_event_bus : frame.

Lemma replay_one_bus b ev : preserves (bus_is b) (replay_one ev).
Proof. destruct ev as [now ev]. unfold replay_one. repeat frame_step. Qed.
Hint Resolve replay_one_bus : frame.

Lemma replay_bus b evs applied : preserves (bus_is b) (replay evs applied).
Proof.
  revert applied.
  induction evs as [|ev evs IH]; intros applied; simpl; repeat frame_step.
Qed.

Lemma await_first_bus b evs : preserves (bus_is b) (await_first evs).
Proof. induction evs as [|[now ev] evs IH]; simpl; repeat frame_step. Qed.

Lemma load_snapshot_bus b snap : preserves (bus_is b) (_load_snapshot snap).
Proof. unfold _load_snapshot. repeat frame_step. Qed.
Hint Resolve replay_bus await_first_bus load_snapshot_bus : frame.

Lemma synchronise_bus b ep : preserves (bus_is b) (synchronise ep).
Proof. unfold synchronise. repeat frame_step. Qed.

(** X10.  Up to the live loop an attempt publishes nothing: the snapshot
    load, the replay of the buffer and the wait for the first bridging
    event leave the bus as it was, also when they raise.  The book after
    the snapshot and after the events applied there is never published as
    such; the first state published is the one after the first live
    event. *)
Theorem nothing_published_before_live (ep : epoch)
    (evs : list (Qc * depth_event)) (applied : bool) (s : BinanceL2BookBuilder) :
  bus (final (synchronise ep s)) = bus s
  /\ bus (final (replay evs applied s)) = bus s
  /\ bus (final (await_first evs s)) = bus s.
Proof.
  split; [|split].
  - exact (synchronise_bus (bus s) ep s eq_refl).
  - exact (replay_bus (bus s) evs applied s eq_refl).
  - exact (await_first_bus (bus s) evs s eq_refl).
Qed.

(** *** What a published state shows of the book *)

Lemma sorted_desc_elem (m : gmap Qc Qc) p q :
  (p, q) ∈ sorted_desc m <-> m !! p = Some q.
Proof.
  unfold sorted_desc. rewrite merge_sort_Permutation. apply elem_of_map_to_list.
Qed.

Lemma sorted_asc_elem (m : gmap Qc Qc) p q :
  (p, q) ∈ sorted_asc m <-> m !! p = Some q.
Proof.
  unfold sorted_asc. rewrite merge_sort_Permutation. apply elem_of_map_to_list.
Qed.

Lemma take_or_beyond (R : relation (Qc * Qc)) (l : list (Qc * Qc)) k x :
  StronglySorted R l -> x ∈ l ->
  x ∈ take k l \/ Forall (fun y => R y x) (take k l).
Proof.
  intros Hs Hx. rewrite <- (take_drop k l) in Hs, Hx.
  apply elem_of_app in Hx as [Hx|Hx]; [by left|]. right.
  apply Forall_forall. intros y Hy.
  by eapply StronglySorted_app_1_elem_of.
Qed.

(** X11.  With [emit_full] off and a non-negative [top_n], a published
    state shows at most [top_n] levels per side, each of them a level of the
    book, and they are the best ones: a bid of the book that is not shown is
    priced below every bid shown, an ask that is not shown above every ask
    shown. *)
Theorem top_levels_are_best now ts (s : BinanceL2BookBuilder)
    (b : Models.BookState) :
  book_state now ts s = Some b ->
  emit_full s = false ->
  0 <= top_n s ->
  (length (Models.bids b) <= Z.to_nat (top_n s))%nat
  /\ (length (Models.asks b) <= Z.to_nat (top_n s))%nat
  /\ (forall p q, (p, q) ∈ Models.bids b -> bids s !! p = Some q)
  /\ (forall p q, (p, q) ∈ Models.asks b -> asks s !! p = Some q)
  /\ (forall p q, bids s !! p = Some q ->
        (p, q) ∈ Models.bids b
        \/ Forall (fun l => (p < l.1)%Qc) (Models.bids b))
  /\ (forall p q, asks s !! p = Some q ->
        (p, q) ∈ Models.asks b
        \/ Forall (fun l => (l.1 < p)%Qc) (Models.asks b)).
Proof.
  intros Hstate Hfull Hn. unfold book_state in Hstate.
  rewrite Hfull in Hstate. unfold _top_levels, slice_to in Hstate.
  destruct (top_n s <? 0) eqn:Hneg; [apply Z.ltb_lt in Hneg; lia|].
  set (k := Z.to_nat (top_n s)) in *.
  destruct (take k (sorted_desc (bids s))) as [|[bb qb] bs] eqn:Hbs; [done|].
  destruct (take k (sorted_asc (asks s))) as [|[ba qa] as_] eqn:Has; [done|].
  injection Hstate as <-. cbn [Models.bids Models.asks].
  rewrite <- Hbs, <- Has.
  split; [rewrite length_take; lia|]. split; [rewrite length_take; lia|].
  split; [|split; [|split]].
  - intros p q Hin. apply sorted_desc_elem.
    rewrite <- (take_drop k). apply elem_of_app. by left.
  - intros p q Hin. apply sorted_asc_elem.
    rewrite <- (take_drop k). apply elem_of_app. by left.
  - intros p q Hin. apply sorted_desc_elem in Hin.
    apply (take_or_beyond (fun x y => (y.1 < x.1)%Qc) _ k (p, q));
      [apply sorted_desc_strict | done].
  - intros p q Hin. apply sorted_asc_elem in Hin.
    apply (take_or_beyond (fun x y => (x.1 < y.1)%Qc) _ k (p, q));
      [apply sorted_asc_strict | done].
Qed.

(** X12.  [_emit_state] publishes only when it has a level to show on both
    sides: with no bid or no ask in the book, or with [top_n] zero (and
    [emit_full] off), it returns with the builder as it was. *)
Theorem emit_needs_both_sides now ts (s : BinanceL2BookBuilder) :
  bids s = ∅ \/ asks s = ∅ \/ (emit_full s = false /\ top_n s = 0) ->
  _emit_state now ts s = Done tt s.
Proof.
  intros Hcase. unfold _emit_state, bind, get.
  assert (Hnone : book_state now ts s = None); [|by rewrite Hnone].
  unfold book_state, _top_levels, sorted_desc, sorted_asc.
  destruct Hcase as [Hb|[Ha|[Hfull Hzero]]].
  - rewrite Hb, map_to_list_empty.
    change (merge_sort price_desc []) with (@nil (Qc * Qc)).
    destruct (emit_full s); [done|]. unfold slice_to.
    destruct (top_n s <? 0); by rewrite ?take_nil.
  - rewrite Ha, map_to_list_empty.
    change (merge_sort price_asc []) with (@nil (Qc * Qc)).
    destruct (emit_full s).
    + by destruct (merge_sort price_desc _) as [|[] ?].
    + unfold slice_to at 2. destruct (top_n s <? 0); rewrite ?take_nil;
        by destruct (slice_to _ _) as [|[] ?].
  - rewrite Hfull, Hzero. reflexivity.
Qed.


(** *** Applying an event twice *)

Lemma put_levels_lookup ps (m : gmap Qc Qc) p :
  put_levels ps m !! p = entries_effect p ps (m !! p).
Proof.
  revert m. induction ps as [|[p' q'] ps IH]; intros m; [done|].
  unfold put_levels, entries_effect in *. cbn [foldl]. rewrite IH. f_equal.
  unfold entry_effect. cbn [fst snd]. destruct (decide (p' = p)) as [->|Hne].
  - apply put_level_lookup.
  - by apply put_level_other.
Qed.

Lemma entries_effect_shape p ps :
  (forall d, entries_effect p ps d = d)
  \/ (exists c, forall d, entries_effect p ps d = c).
Proof.
  induction ps as [|pq ps IH]; [by left|].
  unfold entries_effect in *. cbn [foldl].
  destruct IH as [IH|[c IH]].
  - destruct (decide (pq.1 = p)) as [Heq|Hne].
    + right. exists (if decide (pq.2 = 0%Qc) then None else Some pq.2).
      intros d. rewrite IH. unfold entry_effect. by rewrite decide_True.
    + left. intros d. rewrite IH. unfold entry_effect. by rewrite decide_False.
  - right. exists c. intros d. by rewrite IH.
Qed.

Lemma put_levels_twice ps (m : gmap Qc Qc) :
  put_levels ps (put_levels ps m) = put_levels ps m.
Proof.
  apply map_eq. intros p. rewrite !put_levels_lookup.
  destruct (entries_effect_shape p ps) as [Hid|[c Hc]].
  - by rewrite !Hid.
  - by rewrite !Hc.
Qed.

Lemma apply_bids_shape l s s1 :
  apply_bids l s = Done tt s1 ->
  exists ps, forall s0,
    apply_bids l s0 = Done tt (set_bids (put_levels ps (bids s0)) s0).
Proof.
  revert s. induction l as [|[p q] l IH]; intros s Hrun.
  - exists []. intros s0. by destruct s0.
  - cbn [apply_bids] in *. unfold bind, lift, modify in *.
    destruct (float p) as [e|price]; [done|].
    destruct (float q) as [e|qty]; [done|]. cbn [ret] in *.
    apply IH in Hrun as [ps Hps]. exists ((price, qty) :: ps).
    intros s0. unfold ret. by rewrite Hps.
Qed.

Lemma apply_asks_shape l s s1 :
  apply_asks l s = Done tt s1 ->
  exists ps, forall s0,
    apply_asks l s0 = Done tt (set_asks (put_levels ps (asks s0)) s0).
Proof.
  revert s. induction l as [|[p q] l IH]; intros s Hrun.
  - exists []. intros s0. by destruct s0.
  - cbn [apply_asks] in *. unfold bind, lift, modify in *.
    destruct (float p) as [e|price]; [done|].
    destruct (float q) as [e|qty]; [done|]. cbn [ret] in *.
    apply IH in Hrun as [ps Hps]. exists ((price, qty) :: ps).
    intros s0. unfold ret. by rewrite Hps.
Qed.


End BinanceL2_more.

Section BinanceL2_more_witnesses.
Import BinanceL2 L2Spec L2More.


Lemma fetch_until_not_stale_witness :
  100 <= 100
  /\ int (H := decimal_builtins) (lastUpdateId Scenario.snapshot_A) = inr 100
  /\ exists pre post,
       [Some {| lastUpdateId := Scenario.num 90; snap_bids := []; snap_asks := [] |};
        Some Scenario.snapshot_A]
       = pre ++ Some Scenario.snapshot_A :: post
       /\ Forall (stale_fetch (H := decimal_builtins) 100) pre.
Proof.
  apply (fetch_until_not_stale (H := decimal_builtins) 100
           [Some {| lastUpdateId := Scenario.num 90; snap_bids := []; snap_asks := [] |};
            Some Scenario.snapshot_A]
           Scenario.snapshot_A 100).
  reflexivity.
Defined.

Lemma failed_fetch_returns_quietly_witness :
  let ep := {| fetched := [None]; buffered := Scenario.buffered_A; live := [] |} in
  _run_once (H := decimal_builtins) ep Scenario.builder0
  = Done Returned (cleared Scenario.builder0)
  /\ _resync_count (cleared Scenario.builder0) = _resync_count Scenario.builder0
  /\ bus (cleared Scenario.builder0) = bus Scenario.builder0
  /\ start (H := decimal_builtins) [ep] Scenario.builder0
     = start (H := decimal_builtins) [] (cleared Scenario.builder0).
Proof.
  intros ep.
  apply (failed_fetch_returns_quietly (H := decimal_builtins) ep []
           Scenario.builder0).
  reflexivity.
Defined.

Lemma replay_applies_or_all_stale_witness :
  let s := set_book_update_id 100 Scenario.builder0 in
  s = s /\ false = false
  /\ Forall (stale_event (H := decimal_builtins) (book_update_id s))
       [(0%Qc, Scenario.delta 95 100 [] [])].
Proof.
  intros s.
  apply (replay_applies_or_all_stale (H := decimal_builtins)
           [(0%Qc, Scenario.delta 95 100 [] [])] false s s).
  reflexivity.
Defined.

Lemma top_levels_are_best_witness :
  let s := final (_run_once (H := decimal_builtins)
                    (Scenario.epoch_A Scenario.live_crossing) Scenario.builder0) in
  (length (Models.bids Scenario.crossed_state) <= Z.to_nat (top_n s))%nat
  /\ (forall p q, bids s !! p = Some q ->
        (p, q) ∈ Models.bids Scenario.crossed_state
        \/ Forall (fun l => (p < l.1)%Qc) (Models.bids Scenario.crossed_state)).
Proof.
  intros s.
  destruct (top_levels_are_best 0%Qc JNull s
              Scenario.crossed_state) as (Hlen & _ & _ & _ & Hbest & _);
    [vm_compute; reflexivity | reflexivity | vm_compute; discriminate |].
  by split.
Defined.

Lemma emit_needs_both_sides_witness :
  _emit_state 0%Qc JNull Scenario.builder0 = Done tt Scenario.builder0.
Proof.
  apply emit_needs_both_sides. by left.
Defined.


End BinanceL2_more_witnesses.

(** ** exchanges/coinbase_l3.py *)

Section CoinbaseL3_more.
Import L3More.
Import CoinbaseL3 L3Spec.
Context `{Builtins}.

(** *** Every message keeps the levels equal to the sums of the orders *)

(** A [change] of a live order to a positive size. *)
Lemma change_consistent s msg o ns :
  consistent s -> orders s !! order_id msg = Some o ->
  truthy (order_id msg) = true ->
  is_type "change" msg = true ->
  float (new_size msg) = inr ns -> (0 < ns)%Qc ->
  exists s',
    _apply_message msg s = Done tt s'
    /\ orders s' = <[order_id msg := with_size ns o]> (orders s)
    /\ consistent s'.
Proof.
  intros (Hall & Hbuy & Hsell) Hin Hoid Hty Hsize Hpos.
  destruct (Hall _ o Hin) as [Hopos Hside].
  apply is_type_true in Hty.
  set (o' := with_size ns o).
  assert (Hall' : map_Forall (fun _ o => valid_order o)
                    (<[order_id msg := o']> (orders s))).
  { apply map_Forall_insert_2; [|done]. by split. }
  assert (Hother : forall sd p, (sd <> o_side o \/ p <> o_price o) ->
            live_quantity sd p (<[order_id msg := o']> (orders s))
            = live_quantity sd p (orders s)).
  { intros sd p Hne. rewrite (live_quantity_replace _ _ _ o) by done.
    destruct Hne as [Hne|Hne];
      [rewrite !contributes_other_side by done
      |rewrite !contributes_other_price by done]; ring. }
  assert (Hown : live_quantity (o_side o) (o_price o)
                   (<[order_id msg := o']> (orders s))
                 = (live_quantity (o_side o) (o_price o) (orders s)
                    + (ns - o_size o))%Qc).
  { rewrite (live_quantity_replace _ _ _ o) by done.
    rewrite contributes_own. change (o_side o) with (o_side o').
    change (o_price o) with (o_price o') at 2. rewrite contributes_own.
    simpl. ring. }
  unfold _apply_message.
  rewrite (is_type_other "change" "received"), (is_type_other "change" "open"),
    (is_type_other "change" "match"), (is_type_other "change" "done"),
    (is_type_same "change") by done.
  rewrite Hoid, (float_not_null _ _ Hsize). simpl.
  unfold bind at 1. unfold get at 1. rewrite Hin.
  unfold bind at 1. rewrite Hsize. simpl.
  destruct (decide (ns <= 0)%Qc) as [Hle|_];
    [exfalso; revert Hle Hpos; qc_arith|].
  unfold level_of, store_level. unfold bind, modify, get, lift, ret. cbv beta.
  destruct Hside as [Hsd|Hsd].
  - rewrite (levels_get_buy _ _ Hsd). simpl.
    rewrite (levels_set_buy _ _ _ Hsd).
    destruct (qty_at_level _ _ _ _ o Hall Hbuy Hin Hsd) as [Hq Hge].
    rewrite Hsd in Hown.
    assert (Hmax : max0 (qty_at (o_price o) (buy (levels s)) + (ns - o_size o))%Qc
                   = (live_quantity (JStr "buy") (o_price o) (orders s)
                      + (ns - o_size o))%Qc).
    { rewrite Hq. unfold max0. destruct (decide _) as [|Hn]; [done|].
      exfalso. revert Hn Hge Hpos. qc_arith. }
    rewrite Hmax.
    eexists. split; [reflexivity|]. split; [reflexivity|].
    split; [exact Hall'|]. simpl. split.
    + eapply side_update; [exact Hbuy | | exact Hown |].
      * intros. apply Hother. by right.
      * revert Hge Hpos. qc_arith.
    + eapply side_same; [exact Hsell|]. intros. apply Hother. left.
      by rewrite Hsd.
  - rewrite (levels_get_sell _ _ Hsd). simpl.
    rewrite (levels_set_sell _ _ _ Hsd).
    destruct (qty_at_level _ _ _ _ o Hall Hsell Hin Hsd) as [Hq Hge].
    rewrite Hsd in Hown.
    assert (Hmax : max0 (qty_at (o_price o) (sell (levels s)) + (ns - o_size o))%Qc
                   = (live_quantity (JStr "sell") (o_price o) (orders s)
                      + (ns - o_size o))%Qc).
    { rewrite Hq. unfold max0. destruct (decide _) as [|Hn]; [done|].
      exfalso. revert Hn Hge Hpos. qc_arith. }
    rewrite Hmax.
    eexists. split; [reflexivity|]. split; [reflexivity|].
    split; [exact Hall'|]. simpl. split.
    + eapply side_same; [exact Hbuy|]. intros. apply Hother. left.
      by rewrite Hsd.
    + eapply side_update; [exact Hsell | | exact Hown |].
      * intros. apply Hother. by right.
      * revert Hge Hpos. qc_arith.
Qed.




(** *** Sequence numbers *)

(** X15.  A jump in the sequence numbers is an error only in the live loop.
    There a message more than one ahead of the cursor raises
    [coinbase_seq_gap] and leaves the builder as it was; the same message
    among the buffered ones is applied, and the cursor jumps to it. *)
Theorem sequence_gap_checked_live_only now (msg : message) (q : Z)
    (s : CoinbaseL3BookBuilder) :
  int_or0 (sequence msg) = inr q ->
  last_sequence s + 1 < q ->
  live_one (now, msg) s = Raised (RuntimeError "coinbase_seq_gap") s
  /\ forall s1, _apply_message msg s = Done tt s1 ->
       exists s2, replay_one (now, msg) s = Done tt s2
                  /\ last_sequence s2 = q
                  /\ orders s2 = orders s1 /\ levels s2 = levels s1.
Proof.
  intros Hseq Hgap. split.
  - unfold live_one, bind, get. rewrite Hseq. cbn [lift ret].
    destruct (decide (q <= last_sequence s)); [lia|].
    destruct (decide (q > last_sequence s + 1)); [done | lia].
  - intros s1 Hrun. unfold replay_one, bind, get. rewrite Hseq. cbn [lift ret].
    destruct (decide (q <= last_sequence s)); [lia|].
    rewrite Hrun. unfold modify, _emit_state, bind, get.
    destruct (book_state now (time msg) (set_last_sequence q s1));
      eexists; (split; [reflexivity|]); done.
Qed.

(** *** The failure counter *)

Lemma level_of_failures c sd : preserves (failures_is c) (level_of sd).
Proof. unfold level_of. repeat frame_step. Qed.

Lemma store_level_failures c sd m : preserves (failures_is c) (store_level sd m).
Proof. unfold store_level. repeat frame_step. Qed.
Hint Resolve level_of_failures store_level_failures : frame.

Lemma add_order_failures c oid sd p sz :
  preserves (failures_is c) (_add_order oid sd p sz).
Proof. unfold _add_order. repeat frame_step. Qed.

Lemma remove_order_failures c oid : preserves (failures_is c) (_remove_order oid).
Proof. unfold _remove_order. repeat frame_step. Qed.
Hint Resolve add_order_failures remove_order_failures : frame.

Lemma apply_message_failures c msg : preserves (failures_is c) (_apply_message msg).
Proof. unfold _apply_message. repeat frame_step. Qed.

Lemma emit_state_failures c now ts : preserves (failures_is c) (_emit_state now ts).
Proof. unfold _emit_state. repeat frame_step. Qed.

Lemma emit_state_l2_failures c now bs as_ :
  preserves (failures_is c) (_emit_state_l2 now bs as_).
Proof. unfold _emit_state_l2. repeat frame_step. Qed.
Hint Resolve apply_message_failures emit_state_failures
  emit_state_l2_failures : frame.

Lemma load_side_failures c sd l : preserves (failures_is c) (load_side sd l).
Proof. induction l as [|[[p sz] oid] l IH]; simpl; repeat frame_step. Qed.
Hint Resolve load_side_failures : frame.

Lemma load_snapshot_failures c snap : preserves (failures_is c) (_load_snapshot snap).
Proof. unfold _load_snapshot. repeat frame_step. Qed.

Lemma replay_failures c msgs : preserves (failures_is c) (replay msgs).
Proof.
  induction msgs as [|[now msg] msgs IH]; simpl; [apply preserves_ret|].
  apply preserves_bind; [|by intros []].
  unfold replay_one. repeat frame_step.
Qed.

Lemma live_loop_failures c msgs : preserves (failures_is c) (live_loop msgs).
Proof.
  induction msgs as [|[now msg] msgs IH]; simpl; [apply preserves_ret|].
  apply preserves_bind; [|by intros []].
  unfold live_one. repeat frame_step.
Qed.

Lemma run_rest_only_failures c polls :
  preserves (failures_is c) (_run_rest_only polls).
Proof.
  induction polls as [|[now [snap|]] polls IH]; simpl; repeat frame_step.
Qed.
Hint Resolve load_snapshot_failures replay_failures live_loop_failures
  run_rest_only_failures : frame.

Lemma run_once_failures ep s :
  _snapshot_failures (final (_run_once ep s))
  = _snapshot_failures s + (if decide (fetch_failed ep) then 1 else 0).
Proof.
  unfold _run_once. unfold bind at 1 2 3. unfold modify at 1 2 3.
  destruct (decide (fetch_failed ep)) as [Hf|Hf]; unfold fetch_failed in Hf.
  - rewrite Hf.
    unfold bind at 1. unfold modify at 1. unfold bind at 1. unfold get at 1.
    set (s0 := set_snapshot_failures _ _).
    change (_snapshot_failures s + 1) with (_snapshot_failures s0).
    destruct (allow_l2_fallback s0 && bool_decide (3 <= _snapshot_failures s0));
      [|done].
    exact (run_rest_only_failures _ (polls ep) s0 eq_refl).
  - destruct (fetched ep) as [snap|]; [|done]. rewrite Z.add_0_r.
    set (s0 := set_last_sequence 0 _).
    change (_snapshot_failures s) with (_snapshot_failures s0).
    assert (Hp : preserves (failures_is (_snapshot_failures s0))
                   (do snap_seq <- lift (int_or0 (snap_sequence snap));
                    exec _load_snapshot snap;
                    exec modify (set_last_sequence snap_seq);
                    exec replay (buffered ep);
                    live_loop (live ep))) by repeat frame_step.
    exact (Hp s0 eq_refl).
Qed.

(** X16.  [_snapshot_failures] counts every failed level-3 fetch since the
    builder was made and is never reset: a successful attempt in between
    leaves it as it is, so the fallback starts with the third failure in
    total, whether or not the three were in a row. *)
Theorem snapshot_failures_never_reset (epochs : list epoch)
    (s : CoinbaseL3BookBuilder) :
  _snapshot_failures (start epochs s)
  = _snapshot_failures s + Z.of_nat (length (filter fetch_failed epochs)).
Proof.
  revert s. induction epochs as [|ep epochs IH]; intros s; simpl; [lia|].
  pose proof (run_once_failures ep s) as Hrun.
  rewrite filter_cons.
  destruct (_run_once ep s) as [[] s'|e s']; rewrite IH; simpl in Hrun |- *;
    rewrite Hrun; destruct (decide (fetch_failed ep)); simpl; lia.
Qed.


(** *** The snapshot *)

Lemma load_side_consistent sd l :
  sd = "buy" \/ sd = "sell" ->
  forall s,
    consistent s -> NoDup (ids l) ->
    Forall (fun oid => orders s !! oid = None) (ids l) ->
    positive_sizes l ->
    consistent (final (load_side sd l s))
    /\ forall s', load_side sd l s = Done tt s' ->
         forall oid, orders s' !! oid = None
                     <-> orders s !! oid = None /\ oid ∉ ids l.
Proof.
  intros Hsd. induction l as [|[[p sz] oid] l IH]; intros s Hcons Hnd Hfresh Hpos.
  - split; [done|]. intros s' [= <-] oid. split; [|by intros []].
    intros Hnone. split; [done|]. apply not_elem_of_nil.
  - cbn [load_side]. unfold bind, lift, ret.
    destruct (float p) as [e|pf]; [done|].
    destruct (float sz) as [e|sf] eqn:Hsz; [done|].
    unfold ids in Hnd, Hfresh. rewrite fmap_cons in Hnd, Hfresh.
    cbn [snd] in Hnd, Hfresh.
    apply NoDup_cons in Hnd as [Hnotin Hnd].
    apply Forall_cons in Hfresh as [Hnew Hfresh].
    apply Forall_cons in Hpos as [Hsf Hpos].
    destruct (add_order_consistent s oid (JStr sd) pf sf)
      as (s1 & Hrun & Horders & Hc1);
      [done | done | by destruct Hsd as [->| ->]; [left|right]
      | by apply Hsf |].
    rewrite Hrun.
    destruct (IH s1) as [Hc Hdom]; [done | done | | done |].
    { apply Forall_forall. intros x Hx. rewrite Horders.
      rewrite lookup_insert_ne by (intros ->; by apply Hnotin).
      by apply (proj1 (Forall_forall _ _) Hfresh). }
    split; [done|]. intros s' Hrest x. rewrite (Hdom s' Hrest x).
    rewrite Horders. unfold ids. rewrite fmap_cons. cbn [snd].
    rewrite not_elem_of_cons. destruct (decide (x = oid)) as [->|Hne].
    + rewrite lookup_insert_eq. split; [by intros []|]. by intros (_ & [] & _).
    + rewrite lookup_insert_ne by done. tauto.
Qed.


End CoinbaseL3_more.

Section CoinbaseL3_more_witnesses.
Import CoinbaseL3 L3Spec L3More.


Lemma sequence_gap_checked_live_only_witness :
  live_one (H := decimal_builtins) (0%Qc, ScenarioL3.open_11) ScenarioL3.builder0
  = Raised (RuntimeError "coinbase_seq_gap") ScenarioL3.builder0.
Proof.
  apply (sequence_gap_checked_live_only (H := decimal_builtins) 0%Qc
           ScenarioL3.open_11 11 ScenarioL3.builder0);
    [vm_compute; reflexivity | simpl; lia].
Defined.


End CoinbaseL3_more_witnesses.

(** ** dashboard.py *)

Section Dashboard_facts.
Import Dashboard DashboardSpec.
Variable has_data : string -> bool.

Lemma find_reverse_last (l : list string) x :
  List.find has_data (reverse l) = Some x -> last_with_data has_data l x.
Proof.
  induction l as [|a l IH] using rev_ind; [done|].
  rewrite reverse_app. cbn [reverse rev_append app List.find].
  change (rev_append l []) with (reverse l).
  destruct (has_data a) eqn:Ha.
  - intros [= <-]. exists l, []. by repeat split.
  - intros Hfind. destruct (IH Hfind) as (pre & post & -> & Hx & Hpost).
    exists pre, (post ++ [a]). split; [by rewrite <- app_assoc|].
    split; [done|]. apply Forall_app. split; [done|]. by constructor.
Qed.

Lemma find_reverse_none (l : list string) :
  List.find has_data (reverse l) = None ->
  forall x, x ∈ l -> has_data x = false.
Proof.
  intros Hnone x Hx. apply (List.find_none _ _ Hnone).
  apply list_elem_of_In. by apply elem_of_reverse.
Qed.

(** X18.  [_pick_default_session] fails (with [IndexError]) exactly on an
    empty list of sessions.  Given at least one session it returns one of
    the list; the session it returns has data whenever some session has,
    and is the last of the list when none has. *)
Theorem pick_default_session_total (latest : option string)
    (sessions : list string) :
  (sessions = [] ->
     _pick_default_session has_data latest sessions = inl IndexError)
  /\ (sessions <> [] ->
      exists name,
        _pick_default_session has_data latest sessions = inr name
        /\ name ∈ sessions
        /\ ((exists x, x ∈ sessions /\ has_data x = true) ->
            has_data name = true)
        /\ ((forall x, x ∈ sessions -> has_data x = false) ->
            last sessions = Some name)).
Proof.
  split.
  - intros ->. unfold _pick_default_session.
    destruct latest as [l|]; [|done].
    rewrite (bool_decide_eq_false_2 (l ∈ [])) by apply not_elem_of_nil.
    by rewrite andb_false_r.
  - intros Hne. unfold _pick_default_session.
    destruct (match latest with
              | Some l => if truthy (JStr l) && bool_decide (l ∈ sessions)
                             && has_data l then Some l else None
              | None => None
              end) as [l|] eqn:Hel.
    + destruct latest as [l'|]; [|done].
      destruct (truthy (JStr l') && bool_decide (l' ∈ sessions) && has_data l')
        eqn:Hc; [|done].
      injection Hel as ->.
      apply andb_true_iff in Hc as [Hc Hd].
      apply andb_true_iff in Hc as [_ Hin]. apply bool_decide_eq_true in Hin.
      exists l. split; [done|]. split; [done|]. split; [done|].
      intros Hnone. rewrite (Hnone l Hin) in Hd. discriminate.
    + destruct (List.find has_data (reverse sessions)) as [name|] eqn:Hfind.
      * destruct (find_reverse_last _ _ Hfind) as (pre & post & Heq & Hd & _).
        exists name. split; [done|].
        assert (Hin : name ∈ sessions).
        { rewrite Heq. apply elem_of_app. right. apply elem_of_cons. by left. }
        split; [done|]. split; [done|].
        intros Hnone. rewrite (Hnone name Hin) in Hd. discriminate.
      * pose proof (find_reverse_none _ Hfind) as Hnone.
        destruct (last sessions) as [name|] eqn:Hlast;
          [|by apply last_None in Hlast].
        exists name. split; [done|].
        assert (Hin : name ∈ sessions).
        { by eapply last_Some_elem_of. }
        split; [done|]. split; [|done].
        intros (x & Hx & Hd). rewrite (Hnone x Hx) in Hd. discriminate.
Qed.

(** X19.  Which session [_pick_default_session] prefers: the one the file
    [LATEST] names, if that is a session with data; otherwise, if some
    session has data, the last such session of the list, whatever [LATEST]
    says. *)
Theorem pick_default_session_choice (latest : option string)
    (sessions : list string) (name : string) :
  _pick_default_session has_data latest sessions = inr name ->
  (forall l, latest = Some l -> shown has_data sessions l -> name = l)
  /\ ((forall l, latest = Some l -> ~ shown has_data sessions l) ->
      has_data name = true ->
      last_with_data has_data sessions name).
Proof.
  unfold _pick_default_session, shown. intros Hpick. split.
  - intros l -> (Hne & Hin & Hd).
    assert (Ht : truthy (JStr l) = true).
    { simpl. by rewrite bool_decide_eq_false_2. }
    rewrite Ht, (bool_decide_eq_true_2 _ Hin), Hd in Hpick.
    by injection Hpick as <-.
  - intros Hnot Hd.
    assert (Hel : match latest with
                  | Some l => if truthy (JStr l) && bool_decide (l ∈ sessions)
                                 && has_data l then Some l else None
                  | None => None
                  end = None).
    { destruct latest as [l|]; [|done].
      destruct (truthy (JStr l) && bool_decide (l ∈ sessions) && has_data l)
        eqn:Hc; [|done].
      exfalso. apply (Hnot l eq_refl).
      apply andb_true_iff in Hc as [Hc Hdl].
      apply andb_true_iff in Hc as [Ht Hin]. apply bool_decide_eq_true in Hin.
      split; [|done]. intros ->. discriminate. }
    rewrite Hel in Hpick.
    destruct (List.find has_data (reverse sessions)) as [x|] eqn:Hfind.
    + injection Hpick as <-. by apply find_reverse_last.
    + pose proof (find_reverse_none _ Hfind) as Hnone.
      destruct (last sessions) as [x|] eqn:Hlast; [|done].
      injection Hpick as <-.
      assert (Hin : x ∈ sessions).
      { by eapply last_Some_elem_of. }
      rewrite (Hnone x Hin) in Hd. discriminate.
Qed.

End Dashboard_facts.

Lemma pick_default_session_total_witness :
  exists name,
    Dashboard._pick_default_session (fun n => String.eqb n "s1")
      (Some "s3") ["s1"; "s2"] = inr name
    /\ name ∈ ["s1"; "s2"].
Proof.
  destruct (proj2 (pick_default_session_total
                     (fun n => String.eqb n "s1") (Some "s3") ["s1"; "s2"]))
    as (name & Hpick & Hin & _); [discriminate|].
  by exists name.
Defined.

Lemma pick_default_session_choice_witness :
  DashboardSpec.last_with_data (fun n => String.eqb n "s1") ["s1"; "s2"] "s1".
Proof.
  apply (proj2 (pick_default_session_choice
                  (fun n => String.eqb n "s1") (Some "s3") ["s1"; "s2"] "s1"
                  ltac:(vm_compute; reflexivity))); [|reflexivity].
  intros l [= <-] (_ & _ & Hd). vm_compute in Hd. discriminate Hd.
Defined.
